(** * Matrix: a shallow embedding of [matrix.py]

    The Python class [Matrix] stores its elements in the attribute [_list],
    a list of row lists.  This development embeds the class twice:

    - by value ([matrix := list (list Q)]), for every operation that only
      reads its operands and builds its result in freshly allocated rows
      (determinant, minors, inverse, product, power, slicing, predicates);
    - over a store of row objects (module [Store]), for the in-place
      operators, where it matters which rows are written.

    Numbers are exact rationals ([Q]): Python's [int] arithmetic is exact,
    and [1/det] is read as exact division.  Python exceptions are values of
    [exn]; a method that may raise returns a [result]. *)

From Stdlib Require Import ZArith QArith Qabs Qpower Lia Lqa List Bool String.
From stdpp Require Import base list.

Local Open Scope Z_scope.

(** ** Exceptions and results *)

Inductive exn : Type :=
| IndexError      (* list index out of range *)
| ValueError      (* raised by the class itself *)
| TypeError       (* an operator applied to None *)
| OutOfFuel.      (* the embedding's recursion bound; never reached, see
                     [determinant_fuel_enough] *)

Inductive result (A : Type) : Type :=
| Ok (a : A)
| Raise (e : exn).
Arguments Ok {A} a.
Arguments Raise {A} e.

Definition bind {A B} (x : result A) (k : A -> result B) : result B :=
  match x with
  | Ok a => k a
  | Raise e => Raise e
  end.

Notation "x <- e ;; k" := (bind e (fun x => k))
  (at level 100, e at next level, right associativity).

(** [[f(x) for x in xs]], and a generator consumed to its end: the first
    exception stops the evaluation. *)
Fixpoint mapM {A B} (f : A -> result B) (xs : list A) : result (list B) :=
  match xs with
  | [] => Ok []
  | x :: xs' => y <- f x ;; ys <- mapM f xs' ;; Ok (y :: ys)
  end.

(** [all(f(x) for x in xs)] stops at the first false value. *)
Fixpoint py_all {A} (f : A -> result bool) (xs : list A) : result bool :=
  match xs with
  | [] => Ok true
  | x :: xs' => b <- f x ;; if b then py_all f xs' else Ok false
  end.

(** ** Python lists and numbers *)

(** [range(n)]. *)
Definition py_range (n : nat) : list Z := map Z.of_nat (seq 0 n).

(** The position a Python index denotes in a list of length [n]: negative
    indices count from the end, anything outside [-n, n) is an error. *)
Definition py_pos (n : nat) (i : Z) : option nat :=
  if i <? 0
  then if - Z.of_nat n <=? i then Some (Z.to_nat (i + Z.of_nat n)) else None
  else if i <? Z.of_nat n then Some (Z.to_nat i) else None.

(** [l[i]]. *)
Definition py_index {A} (l : list A) (i : Z) : result A :=
  match py_pos (length l) i with
  | Some k => match l !! k with Some x => Ok x | None => Raise IndexError end
  | None => Raise IndexError
  end.

(** [i in l] for integers. *)
Definition py_in (i : Z) (l : list Z) : bool := existsb (Z.eqb i) l.

(** [sum(xs)]: starts from 0 and adds from the left. *)
Definition py_sum (xs : list Q) : Q := fold_left Qplus xs 0%Q.

(** [x == 0] and [x != 0] on numbers. *)
Definition is_zero (x : Q) : bool := Qeq_bool x 0.

(** [(-1)**k]. *)
Definition neg_one_pow (k : Z) : Q := Qpower (-1) k.

(** [math.isclose(a, b)] with its default tolerances ([rel_tol = 1e-09],
    [abs_tol = 0.0]), on exact rationals. *)
Definition rel_tol : Q := 1 # 1000000000.
Definition isclose (a b : Q) : bool :=
  let diff := Qabs (b - a) in
  Qeq_bool a b
  || Qle_bool diff (Qabs (rel_tol * b))
  || Qle_bool diff (Qabs (rel_tol * a))
  || Qle_bool diff 0.

(** ** The matrix and its raw access *)

(** The value of [_list]. *)
Abbreviation matrix := (list (list Q)).

(** [Matrix.raw(rows)]: the list is taken as it is. *)
Definition raw (rows : list (list Q)) : matrix := rows.

(** [Matrix.zero(m, n)]: [[[0]*n for _ in range(m)]]. *)
Definition zero (m n : nat) : matrix := raw (replicate m (replicate n 0%Q)).

(** Property [rows]: [len(self._list)]. *)
Definition rows (m : matrix) : nat := length m.

(** Property [columns]: [len(self._list[0])]. *)
Definition columns (m : matrix) : result nat :=
  r0 <- py_index m 0 ;; Ok (length r0).

(** Property [size]: [self.rows, self.columns]. *)
Definition size (m : matrix) : result (nat * nat) :=
  c <- columns m ;; Ok (rows m, c).

(** Property [is_square]: [self.rows == self.columns]. *)
Definition is_square (m : matrix) : result bool :=
  c <- columns m ;; Ok (rows m =? c)%nat.

(** [__getitem__] on a pair of integers: [self._list[i][j]]. *)
Definition getitem (m : matrix) (i j : Z) : result Q :=
  row <- py_index m i ;; py_index row j.

(** [__setitem__]: [self._list[i][j] = val]. *)
Definition setitem (m : matrix) (i j : Z) (val : Q) : result matrix :=
  row <- py_index m i ;;
  match py_pos (length m) i, py_pos (length row) j with
  | Some ki, Some kj => Ok (<[ki := <[kj := val]> row]> m)
  | _, _ => Raise IndexError
  end.

(** [fill(func)]: the two nested loops.  [func] receives the matrix as it
    is when the element is computed, since the lambdas of [__iadd__] and
    [__imul__] read the matrix they are filling.  [range(self.rows)] is
    evaluated once, [range(self.columns)] at every row. *)
Fixpoint fill_row (func : matrix -> Z -> Z -> result Q) (r : Z)
    (cs : list Z) (m : matrix) : result matrix :=
  match cs with
  | [] => Ok m
  | c :: cs' =>
      v <- func m r c ;; m' <- setitem m r c v ;; fill_row func r cs' m'
  end.

Fixpoint fill_rows (func : matrix -> Z -> Z -> result Q) (rs : list Z)
    (m : matrix) : result matrix :=
  match rs with
  | [] => Ok m
  | r :: rs' =>
      n <- columns m ;;
      m' <- fill_row func r (py_range n) m ;;
      fill_rows func rs' m'
  end.

Definition fill (func : matrix -> Z -> Z -> result Q) (m : matrix)
    : result matrix :=
  fill_rows func (py_range (rows m)) m.

(** [Matrix(rows)], the constructor. *)
Definition init (rws : list (list Q)) : result matrix :=
  if (length rws =? 0)%nat then Ok []
  else
    r0 <- py_index rws 0 ;;
    if (length r0 =? 0)%nat then Ok []
    else fill (fun _ r c => row <- py_index rws r ;; py_index row c)
              (zero (length rws) (length r0)).

(** [Matrix.identity(n)]. *)
Fixpoint identity_loop (ixs : list Z) (m : matrix) : result matrix :=
  match ixs with
  | [] => Ok m
  | i :: ixs' => m' <- setitem m i i 1%Q ;; identity_loop ixs' m'
  end.

Definition identity (n : nat) : result matrix :=
  identity_loop (py_range n) (zero n n).

(** [copy()]. *)
Definition copy (m : matrix) : result matrix :=
  sz <- size m ;;
  fill (fun _ r c => getitem m r c) (zero (fst sz) (snd sz)).

(** ** Arithmetic that saves its result as a new matrix *)

(** [__imul__]: [self.fill(lambda r, c: self[r, c]*k)]. *)
Definition imul (m : matrix) (k : Q) : result matrix :=
  fill (fun self r c => x <- getitem self r c ;; Ok (x * k)%Q) m.

(** [__mul__]: [self.copy().__imul__(k)]. *)
Definition mul (m : matrix) (k : Q) : result matrix :=
  new <- copy m ;; imul new k.

(** [__matmul__]. *)
Definition matmul (self other : matrix) : result matrix :=
  n <- columns self ;;
  if negb (n =? rows other)%nat then Raise ValueError
  else
    oc <- columns other ;;
    fill (fun _ r c =>
            ts <- mapM (fun i => a <- getitem self r i ;;
                                 b <- getitem other i c ;;
                                 Ok (a * b)%Q)
                       (py_range (rows other)) ;;
            Ok (py_sum ts))
         (zero (rows self) oc).

(** ** Submatrices, determinant and inverse *)

(** [submatrix(delr, delc)]: the nested comprehension. *)
Definition submatrix (m : matrix) (delr delc : list Z) : result matrix :=
  mapM (fun i =>
          n <- columns m ;;
          mapM (fun j => getitem m i j)
               (List.filter (fun j => negb (py_in j delc)) (py_range n)))
       (List.filter (fun i => negb (py_in i delr)) (py_range (rows m))).

(** [determinant()] calls [minor(0, c)], which calls [determinant()] on a
    submatrix: the recursion is bounded by [fuel]. *)
Fixpoint determinant_fuel (fuel : nat) (m : matrix) : result Q :=
  match fuel with
  | O => Raise OutOfFuel
  | S fuel' =>
      sq <- is_square m ;;
      if negb sq then Raise ValueError
      else
        sz <- size m ;;
        if ((fst sz =? 2) && (snd sz =? 2))%nat
        then
          a <- getitem m 0 0 ;; d <- getitem m 1 1 ;;
          b <- getitem m 0 1 ;; c <- getitem m 1 0 ;;
          Ok (a * d - b * c)%Q
        else
          n <- columns m ;;
          ts <- mapM (fun c =>
                        x <- getitem m 0 c ;;
                        sub <- submatrix m [0] [c] ;;
                        mn <- determinant_fuel fuel' sub ;;
                        Ok (x * mn * neg_one_pow (c mod 2))%Q)
                     (py_range n) ;;
          Ok (py_sum ts)
  end.

(** Every recursive call drops a row, so one unit of fuel per row (and one
    for the call itself) is enough: see [determinant_fuel_enough]. *)
Definition determinant (m : matrix) : result Q :=
  determinant_fuel (S (rows m)) m.

(** [minor(r, c)]: [self.submatrix([r], [c]).determinant()]. *)
Definition minor (m : matrix) (r c : Z) : result Q :=
  sub <- submatrix m [r] [c] ;; determinant sub.

(** [transpose()]. *)
Definition transpose (m : matrix) : result matrix :=
  n <- columns m ;;
  fill (fun _ r c => getitem m c r) (zero n (rows m)).

(** [cofactor()]. *)
Definition cofactor (m : matrix) : result matrix :=
  sz <- size m ;;
  fill (fun _ r c => x <- getitem m r c ;;
                     Ok (x * neg_one_pow ((r + c) mod 2))%Q)
       (zero (fst sz) (snd sz)).

(** [adjugate()]: [self.cofactor().transpose()]. *)
Definition adjugate (m : matrix) : result matrix :=
  cf <- cofactor m ;; transpose cf.

(** [inverse()]; [None] is Python's [None]. *)
Definition inverse (m : matrix) : result (option matrix) :=
  sq <- is_square m ;;
  det <- (if sq then determinant m else Ok 0%Q) ;;
  if is_zero det then Ok None
  else
    sz <- size m ;;
    minors <- fill (fun _ r c => minor m r c) (zero (fst sz) (snd sz)) ;;
    adj <- adjugate minors ;;
    res <- mul adj (1 / det)%Q ;;
    Ok (Some res).

(** [__pow__].  [new @= self] is [new = new @ self] (the class has no
    [__imatmul__]); on [None] it raises [TypeError]. *)
Fixpoint pow_loop (n : nat) (self : matrix) (new : option matrix)
    : result (option matrix) :=
  match n with
  | O => Ok new
  | S n' =>
      match new with
      | None => Raise TypeError
      | Some a => new' <- matmul a self ;; pow_loop n' self (Some new')
      end
  end.

Definition pow (m : matrix) (p : Z) : result (option matrix) :=
  sq <- is_square m ;;
  if negb sq && negb ((p =? 1) || (p =? -1)) then Raise ValueError
  else if p =? 0 then (i <- identity (rows m) ;; Ok (Some i))
  else
    new <- copy m ;;
    if p <? 0
    then inv <- inverse new ;; pow_loop (Z.to_nat (- p - 1)) m inv
    else pow_loop (Z.to_nat (p - 1)) m (Some new).

(** ** Predicates *)

(** The Python objects that [is_invertible] compares: a number, or the
    bound method [self.determinant] (the attribute, not its call). *)
Inductive pyobj : Type :=
| PyNum (x : Q)
| PyBoundMethod (name : string).

(** [a == b]: numbers compare by value; a bound method is not a number and
    equals none. *)
Definition py_eq (a b : pyobj) : bool :=
  match a, b with
  | PyNum x, PyNum y => Qeq_bool x y
  | PyBoundMethod f, PyBoundMethod g => String.eqb f g
  | _, _ => false
  end.

(** Property [is_invertible]: [not self.is_square or self.determinant == 0]. *)
Definition is_invertible (m : matrix) : result bool :=
  sq <- is_square m ;;
  Ok (negb sq || py_eq (PyBoundMethod "determinant") (PyNum 0)).

(** [all_positions()]: for each column, every row. *)
Definition all_positions (m : matrix) : result (list (Z * Z)) :=
  n <- columns m ;;
  Ok (flat_map (fun c => map (fun r => (r, c)) (py_range (rows m)))
               (py_range n)).

(** Property [is_identity]. *)
Definition is_identity (m : matrix) : result bool :=
  ps <- all_positions m ;;
  py_all (fun p => x <- getitem m (fst p) (snd p) ;;
                   Ok (isclose x (if fst p =? snd p then 1 else 0)%Q))
         ps.

(** Property [is_echelon].  The inner loop ends in one of three ways. *)
Inductive scan : Type :=
| ReturnFalse   (* return False *)
| Break         (* break *)
| NoBreak.      (* the for loop ran to its end: the else branch *)

Fixpoint echelon_row (m : matrix) (zero_row : bool) (r : Z) (cs : list Z)
    : result scan :=
  match cs with
  | [] => Ok NoBreak
  | c :: cs' =>
      x <- getitem m r c ;;
      if negb (is_zero x)
      then
        if zero_row then Ok ReturnFalse
        else y <- getitem m (r + 1) c ;;
             if negb (is_zero y) then Ok ReturnFalse else Ok Break
      else echelon_row m zero_row r cs'
  end.

Fixpoint echelon_rows (m : matrix) (zero_row : bool) (rs : list Z)
    : result bool :=
  match rs with
  | [] => Ok true
  | r :: rs' =>
      n <- columns m ;;
      s <- echelon_row m zero_row r (py_range n) ;;
      match s with
      | ReturnFalse => Ok false
      | Break => echelon_rows m zero_row rs'
      | NoBreak => echelon_rows m true rs'
      end
  end.

Definition is_echelon (m : matrix) : result bool :=
  echelon_rows m false (py_range (rows m - 1)).

(** ** Slicing *)

(** A [slice] object; [__getitem__] reads [start] and [stop] only. *)
Record slice : Type := Slice { start : option Z; stop : option Z }.

(** [if s is None: s = 0 elif s < 0: s += dim].  [dim] is the property
    read when (and only when) the branch needs it. *)
Definition slice_start (s : option Z) (dim : result nat) : result Z :=
  match s with
  | None => Ok 0
  | Some v => if v <? 0 then (d <- dim ;; Ok (v + Z.of_nat d)) else Ok v
  end.

(** [if s is None: s = dim elif s < 0: s += dim]. *)
Definition slice_stop (s : option Z) (dim : result nat) : result Z :=
  match s with
  | None => d <- dim ;; Ok (Z.of_nat d)
  | Some v => if v <? 0 then (d <- dim ;; Ok (v + Z.of_nat d)) else Ok v
  end.

(** [__getitem__] on a pair of slices. *)
Definition getitem_slice (m : matrix) (i j : slice) : result matrix :=
  istart <- slice_start (start i) (Ok (rows m)) ;;
  istop <- slice_stop (stop i) (Ok (rows m)) ;;
  jstart <- slice_start (start j) (columns m) ;;
  jstop <- slice_stop (stop j) (columns m) ;;
  let nrows := istop - istart in
  let ncols := jstop - jstart in
  if (nrows <? 1) || (ncols <? 1) then init []
  else fill (fun _ r c => getitem m (istart + r) (jstart + c))
            (zero (Z.to_nat nrows) (Z.to_nat ncols)).

(** ** The demo's matrices *)

Definition M1 : list (list Q) := [[4; 6]; [3; 8]]%Q.
Definition M2 : list (list Q) := [[3; 0; 2]; [2; 0; -2]; [0; 1; 1]]%Q.
Definition M3 : list (list Q) :=
  [[4; 2; 3; 1; 4]; [0; 2; 1; 4; 0]; [0; 0; 0; 3; 0]]%Q.


(** * Properties *)

Local Open Scope nat_scope.

(** ** Results *)

Lemma bind_Ok {A B} (x : result A) (k : A -> result B) (b : B) :
  bind x k = Ok b -> exists a, x = Ok a /\ k a = Ok b.
Proof. destruct x as [a|e]; simpl; intros H; [eauto | discriminate]. Qed.

Lemma bind_Raise {A B} (x : result A) (k : A -> result B) (e : exn) :
  bind x k = Raise e -> x = Raise e \/ exists a, x = Ok a /\ k a = Raise e.
Proof. destruct x as [a|e']; simpl; intros H; [eauto | left; congruence]. Qed.

(** [mapM] succeeds when its function does on every element, and then
    agrees with [map]. *)
Lemma mapM_map {A B} (f : A -> result B) (g : A -> B) (xs : list A) :
  (forall x, In x xs -> f x = Ok (g x)) -> mapM f xs = Ok (map g xs).
Proof.
  induction xs as [|x xs IH]; simpl; intros H; [reflexivity|].
  rewrite (H x) by auto. simpl. rewrite IH by auto. reflexivity.
Qed.

Lemma mapM_ext {A B} (f g : A -> result B) (xs : list A) :
  (forall x, In x xs -> f x = g x) -> mapM f xs = mapM g xs.
Proof.
  induction xs as [|x xs IH]; simpl; intros H; [reflexivity|].
  rewrite (H x) by auto. rewrite IH by auto. reflexivity.
Qed.

(** An exception of [mapM] is an exception of its function. *)
Lemma mapM_Raise {A B} (f : A -> result B) (xs : list A) (e : exn) :
  mapM f xs = Raise e -> exists x, In x xs /\ f x = Raise e.
Proof.
  induction xs as [|x xs IH]; simpl; [discriminate|].
  destruct (f x) as [y|e'] eqn:Hx; simpl.
  - destruct (mapM f xs) as [ys|e'']; simpl; [discriminate|].
    intros [= ->]. destruct IH as (x' & Hin & Hx'); eauto.
  - intros [= ->]. eauto.
Qed.

(** ** Python indexing *)

Lemma py_pos_of_nat (n k : nat) :
  py_pos n (Z.of_nat k) = if decide (k < n) then Some k else None.
Proof.
  unfold py_pos.
  destruct (Z.ltb_spec (Z.of_nat k) 0); [lia|].
  destruct (Z.ltb_spec (Z.of_nat k) (Z.of_nat n)); case_decide;
    try lia; try reflexivity.
  by rewrite Nat2Z.id.
Qed.

Lemma py_pos_lt (n : nat) (i : Z) (k : nat) : py_pos n i = Some k -> k < n.
Proof.
  unfold py_pos.
  destruct (Z.ltb_spec i 0).
  - destruct (Z.leb_spec (- Z.of_nat n) i); intros [= <-]; lia.
  - destruct (Z.ltb_spec i (Z.of_nat n)); intros [= <-]; lia.
Qed.

Lemma py_index_of_nat {A} (l : list A) (k : nat) :
  py_index l (Z.of_nat k)
  = match l !! k with Some x => Ok x | None => Raise IndexError end.
Proof.
  unfold py_index. rewrite py_pos_of_nat. case_decide; [reflexivity|].
  by rewrite lookup_ge_None_2 by lia.
Qed.

Lemma py_index_0 {A} (l : list A) :
  py_index l 0%Z
  = match l !! 0 with Some x => Ok x | None => Raise IndexError end.
Proof. exact (py_index_of_nat l 0). Qed.

(** Indexing raises nothing but [IndexError]. *)
Lemma py_index_Raise {A} (l : list A) (i : Z) (e : exn) :
  py_index l i = Raise e -> e = IndexError.
Proof.
  unfold py_index. destruct (py_pos _ _); [destruct (_ !! _)|]; congruence.
Qed.

Lemma In_py_range (n : nat) (i : Z) :
  In i (py_range n) <-> exists k, i = Z.of_nat k /\ k < n.
Proof.
  unfold py_range. rewrite in_map_iff. split.
  - intros (k & <- & Hk). apply in_seq in Hk. exists k. split; [done | lia].
  - intros (k & -> & Hk). exists k. split; [done|]. apply in_seq. lia.
Qed.

Lemma py_range_S (n : nat) : py_range (S n) = py_range n ++ [Z.of_nat n].
Proof. unfold py_range. by rewrite seq_S, map_app. Qed.

Lemma length_py_range (n : nat) : length (py_range n) = n.
Proof. unfold py_range. by rewrite length_map, length_seq. Qed.

(** ** Rectangular matrices *)

(** [rect R C m]: [R] rows, each of [C] elements. *)
Definition rect (R C : nat) (m : matrix) : Prop :=
  length m = R /\ Forall (fun row => length row = C) m.

(** The element at row [i], column [j], if there is one. *)
Definition cell (m : matrix) (i j : nat) : option Q :=
  match m !! i with Some row => row !! j | None => None end.

Lemma rect_lookup R C m i row :
  rect R C m -> m !! i = Some row -> length row = C.
Proof.
  intros [_ Hall] Hi. rewrite Forall_forall in Hall.
  apply Hall. eapply list_elem_of_lookup_2; eauto.
Qed.

Lemma rect_cell R C m i j :
  rect R C m -> i < R -> j < C -> exists x, cell m i j = Some x.
Proof.
  intros Hm Hi Hj. unfold cell.
  destruct (m !! i) as [row|] eqn:Hrow.
  - apply lookup_lt_is_Some. by rewrite (rect_lookup _ _ _ _ _ Hm Hrow).
  - apply lookup_ge_None in Hrow. destruct Hm. lia.
Qed.

Lemma rect_zero R C : rect R C (zero R C).
Proof.
  split; unfold zero, raw; [by rewrite length_replicate|].
  apply Forall_forall. intros row Hin.
  apply elem_of_replicate in Hin as [-> _]. by rewrite length_replicate.
Qed.

Lemma columns_rect R C m : rect R C m -> 0 < R -> columns m = Ok C.
Proof.
  intros Hm HR. unfold columns. rewrite py_index_0.
  destruct (m !! 0) as [row|] eqn:Hrow; simpl.
  - by rewrite (rect_lookup _ _ _ _ _ Hm Hrow).
  - apply lookup_ge_None in Hrow. destruct Hm. lia.
Qed.

Lemma getitem_of_nat (m : matrix) (i j : nat) :
  getitem m (Z.of_nat i) (Z.of_nat j)
  = match cell m i j with Some x => Ok x | None => Raise IndexError end.
Proof.
  unfold getitem, cell. rewrite py_index_of_nat.
  destruct (m !! i); simpl; [apply py_index_of_nat | reflexivity].
Qed.

Lemma getitem_Raise m i j e : getitem m i j = Raise e -> e = IndexError.
Proof.
  unfold getitem. intros H. apply bind_Raise in H as [H|(row & _ & H)];
    eapply py_index_Raise; eauto.
Qed.

Lemma setitem_Raise m i j v e : setitem m i j v = Raise e -> e = IndexError.
Proof.
  unfold setitem. intros H. apply bind_Raise in H as [H|(row & _ & H)].
  - eapply py_index_Raise; eauto.
  - destruct (py_pos _ i); [destruct (py_pos _ j)|]; congruence.
Qed.

(** Writing one element of a rectangular matrix. *)
Lemma setitem_rect R C m i j v :
  rect R C m -> i < R -> j < C ->
  exists m', setitem m (Z.of_nat i) (Z.of_nat j) v = Ok m' /\ rect R C m' /\
    forall i' j', cell m' i' j'
      = if decide (i' = i /\ j' = j) then Some v else cell m i' j'.
Proof.
  intros Hm Hi Hj. pose proof Hm as [Hlen Hall].
  destruct (lookup_lt_is_Some_2 m i) as [row Hrow]; [lia|].
  pose proof (rect_lookup _ _ _ _ _ Hm Hrow) as Hrowlen.
  unfold setitem. rewrite py_index_of_nat, Hrow. simpl.
  rewrite !py_pos_of_nat. rewrite !decide_True by lia.
  eexists. split; [reflexivity|]. split.
  - split; [by rewrite length_insert|].
    apply Forall_insert; [done|]. by rewrite length_insert.
  - intros i' j'. unfold cell.
    destruct (decide (i' = i)) as [->|Hne].
    + rewrite list_lookup_insert_eq by lia. rewrite Hrow.
      destruct (decide (j' = j)) as [->|Hne'].
      * rewrite decide_True by done. apply list_lookup_insert_eq. lia.
      * rewrite decide_False by tauto. by apply list_lookup_insert_ne.
    + rewrite decide_False by tauto. by rewrite list_lookup_insert_ne.
Qed.

(** Two rectangular matrices with the same elements are the same list. *)
Lemma rect_ext R C (a b : matrix) :
  rect R C a -> rect R C b ->
  (forall i j, i < R -> j < C -> cell a i j = cell b i j) -> a = b.
Proof.
  intros Ha Hb Hcell. apply list_eq. intros i.
  destruct (a !! i) as [ra|] eqn:Hra, (b !! i) as [rb|] eqn:Hrb.
  - f_equal. pose proof (rect_lookup _ _ _ _ _ Ha Hra) as Hla.
    pose proof (rect_lookup _ _ _ _ _ Hb Hrb) as Hlb.
    apply lookup_lt_Some in Hra as Hi. destruct Ha as [Hlen _].
    apply list_eq. intros j. destruct (decide (j < C)) as [Hj|Hj].
    + specialize (Hcell i j ltac:(lia) Hj). unfold cell in Hcell.
      by rewrite Hra, Hrb in Hcell.
    + by rewrite !lookup_ge_None_2 by lia.
  - apply lookup_lt_Some in Hra. apply lookup_ge_None in Hrb.
    destruct Ha, Hb. lia.
  - apply lookup_ge_None in Hra. apply lookup_lt_Some in Hrb.
    destruct Ha, Hb. lia.
  - reflexivity.
Qed.

(** ** [fill] *)

Section FillSpec.
Variables R C : nat.
Variable func : matrix -> Z -> Z -> result Q.
Variable g : nat -> nat -> Q.
Variable m0 : matrix.

(** [func] returns [g i j] at position [(i, j)] as long as that element
    of the matrix still has the value it had when [fill] was called. *)
Hypothesis func_ok : forall cur i j,
  i < R -> j < C -> rect R C cur -> cell cur i j = cell m0 i j ->
  func cur (Z.of_nat i) (Z.of_nat j) = Ok (g i j).

(** The loop invariant: the positions before [(r, c)] are filled. *)
Definition fill_inv (r c : nat) (cur : matrix) : Prop :=
  rect R C cur /\
  forall i j, i < R -> j < C ->
    cell cur i j
    = if decide (i < r \/ (i = r /\ j < c)) then Some (g i j)
      else cell m0 i j.

Lemma fill_row_inv (r : nat) :
  r < R ->
  forall n c cur, c + n = C -> fill_inv r c cur ->
  exists cur',
    fill_row func (Z.of_nat r) (map Z.of_nat (seq c n)) cur = Ok cur'
    /\ fill_inv r C cur'.
Proof.
  intros Hr n. induction n as [|n IH]; intros c cur Hc Hinv; simpl.
  - exists cur. split; [reflexivity|]. by replace C with c by lia.
  - destruct Hinv as [Hrect Hcells].
    rewrite (func_ok cur r c) by
      (try lia; try done; rewrite Hcells by lia;
       by rewrite decide_False by lia).
    simpl.
    destruct (setitem_rect R C cur r c (g r c) Hrect) as
      (cur1 & -> & Hrect1 & Hcell1); [lia | lia |]. simpl.
    apply IH; [lia|]. split; [done|]. intros i j Hi Hj.
    rewrite Hcell1, Hcells by done.
    repeat case_decide; try reflexivity; try lia.
    destruct H as [-> ->]. reflexivity.
Qed.

Lemma fill_rows_inv :
  forall n r cur, r + n = R -> fill_inv r 0 cur ->
  exists cur',
    fill_rows func (map Z.of_nat (seq r n)) cur = Ok cur'
    /\ fill_inv R 0 cur'.
Proof.
  intros n. induction n as [|n IH]; intros r cur Hr Hinv; simpl.
  - exists cur. split; [reflexivity|]. by replace R with r by lia.
  - pose proof Hinv as [Hrect _].
    rewrite (columns_rect R C cur) by (done || lia). simpl.
    destruct (fill_row_inv r ltac:(lia) C 0 cur eq_refl Hinv) as
      (cur1 & Hrow & [Hrect1 Hcell1]).
    unfold py_range. rewrite Hrow. simpl.
    apply IH; [lia|]. split; [done|]. intros i j Hi Hj.
    rewrite Hcell1 by done.
    repeat case_decide; try reflexivity; lia.
Qed.

(** [fill] on a rectangular matrix returns the matrix of the [g i j]. *)
Lemma fill_spec :
  rect R C m0 ->
  exists m', fill func m0 = Ok m' /\ rect R C m' /\
    forall i j, i < R -> j < C -> cell m' i j = Some (g i j).
Proof.
  intros Hrect. pose proof Hrect as [Hlen _].
  destruct (fill_rows_inv R 0 m0 eq_refl) as (m' & Hfill & [Hr Hc]).
  - split; [done|]. intros i j Hi Hj. by rewrite decide_False by lia.
  - exists m'. unfold fill, rows, py_range. rewrite Hlen.
    split; [done|]. split; [done|]. intros i j Hi Hj.
    rewrite Hc by done. by rewrite decide_True by lia.
Qed.
End FillSpec.

(** ** More on [mapM] *)

Lemma mapM_Forall2 {A B} (f : A -> result B) (xs : list A) (ys : list B) :
  mapM f xs = Ok ys <-> Forall2 (fun x y => f x = Ok y) xs ys.
Proof.
  revert ys. induction xs as [|x xs IH]; intros ys; simpl.
  - split; [intros [= <-]; constructor | by inversion 1].
  - split.
    + intros H. apply bind_Ok in H as (y & Hy & H).
      apply bind_Ok in H as (ys' & Hys & [= <-]).
      constructor; [done | by apply IH].
    + inversion 1 as [|? y ? ys' Hy Hys]; subst.
      rewrite Hy. simpl. apply IH in Hys. by rewrite Hys.
Qed.

Lemma mapM_length {A B} (f : A -> result B) (xs : list A) (ys : list B) :
  mapM f xs = Ok ys -> length ys = length xs.
Proof.
  intros H. apply mapM_Forall2 in H. symmetry. by eapply Forall2_length.
Qed.

Lemma mapM_total {A B} (f : A -> result B) (xs : list A) :
  (forall x, In x xs -> exists y, f x = Ok y) -> exists ys, mapM f xs = Ok ys.
Proof.
  induction xs as [|x xs IH]; simpl; intros H; [eauto|].
  destruct (H x) as [y ->]; [auto|]. destruct IH as [ys ->]; [auto|].
  simpl. eauto.
Qed.

(** ** [submatrix] *)

(** The element at [(i, j)], or 0 where there is none. *)
Definition elt (m : matrix) (i j : Z) : Q :=
  default 0%Q (cell m (Z.to_nat i) (Z.to_nat j)).

Lemma getitem_elt R C m i j :
  rect R C m -> In i (py_range R) -> In j (py_range C) ->
  getitem m i j = Ok (elt m i j).
Proof.
  intros Hm (r & -> & Hr)%In_py_range (c & -> & Hc)%In_py_range.
  rewrite getitem_of_nat. unfold elt. rewrite !Nat2Z.id.
  by destruct (rect_cell R C m r c) as [x ->].
Qed.

(** [range(n)] without [k]. *)
Definition range_without (n : nat) (k : Z) : list Z :=
  List.filter (fun i => negb (py_in i [k])) (py_range n).

Lemma In_range_without n k i :
  In i (range_without n k) -> In i (py_range n).
Proof. unfold range_without. rewrite filter_In. tauto. Qed.

Lemma length_range_without_ge n (k : nat) :
  n <= k -> range_without n (Z.of_nat k) = py_range n.
Proof.
  intros Hk. unfold range_without. apply forallb_filter_id.
  apply forallb_forall. intros i (j & -> & Hj)%In_py_range. simpl.
  destruct (Z.eqb_spec (Z.of_nat j) (Z.of_nat k)); [lia | reflexivity].
Qed.

Lemma length_range_without n (k : nat) :
  k < n -> length (range_without n (Z.of_nat k)) = n - 1.
Proof.
  induction n as [|n IH]; [lia|]. intros Hk.
  unfold range_without in *. rewrite py_range_S, List.filter_app, length_app.
  destruct (decide (k = n)) as [->|Hne].
  - pose proof (length_range_without_ge n n ltac:(lia)) as Hge.
    unfold range_without in Hge. rewrite Hge, length_py_range.
    simpl. rewrite Z.eqb_refl. simpl. lia.
  - rewrite IH by lia. simpl.
    destruct (Z.eqb_spec (Z.of_nat n) (Z.of_nat k)); [lia|]. simpl. lia.
Qed.

(** On a rectangular matrix, [submatrix([r], [c])] is the matrix of the
    remaining elements, in their order. *)
Lemma submatrix_rect R C m (r c : Z) :
  rect R C m ->
  submatrix m [r] [c]
  = Ok (map (fun i => map (fun j => elt m i j) (range_without C c))
            (range_without R r)).
Proof.
  intros Hm. unfold submatrix, rows. destruct Hm as [Hlen Hall].
  rewrite Hlen. apply mapM_map. intros i Hi%In_range_without.
  rewrite (columns_rect R C m); [|done|].
  - simpl. apply mapM_map. intros j Hj%In_range_without.
    by apply (getitem_elt R C).
  - apply In_py_range in Hi as (k & _ & Hk). lia.
Qed.

Lemma submatrix_rect_shape R C m (r c : nat) :
  rect R C m -> r < R -> c < C ->
  exists sub, submatrix m [Z.of_nat r] [Z.of_nat c] = Ok sub
              /\ rect (R - 1) (C - 1) sub.
Proof.
  intros Hm Hr Hc. eexists. split; [by apply (submatrix_rect R C)|].
  split.
  - by rewrite length_map, length_range_without.
  - apply Forall_forall. intros row Hin. apply list_elem_of_In in Hin.
    apply in_map_iff in Hin as (i & <- & _).
    by rewrite length_map, length_range_without.
Qed.

(** Deleting row 0 always drops one row, whatever the rows' lengths. *)
Lemma submatrix_row0_length m (c : Z) sub :
  submatrix m [0%Z] [c] = Ok sub -> length sub = length m - 1.
Proof.
  unfold submatrix. intros H%mapM_length. rewrite H. unfold rows.
  destruct m as [|row m]; [reflexivity|].
  apply (length_range_without (S (length m)) 0). lia.
Qed.

(** ** [determinant]: the recursion bound is never reached *)

Lemma columns_Raise m e : columns m = Raise e -> e = IndexError.
Proof.
  unfold columns. intros [H|(r0 & _ & [=])]%bind_Raise.
  eapply py_index_Raise; eauto.
Qed.

Lemma columns_nonempty m c : columns m = Ok c -> 0 < length m.
Proof.
  unfold columns. rewrite py_index_0. destruct m; simpl; [discriminate|lia].
Qed.

Lemma is_square_nonempty m sq : is_square m = Ok sq -> 0 < length m.
Proof.
  unfold is_square. intros (n & Hn & _)%bind_Ok. by eapply columns_nonempty.
Qed.

Lemma submatrix_Raise m delr delc e :
  submatrix m delr delc = Raise e -> e = IndexError.
Proof.
  unfold submatrix. intros (i & _ & H)%mapM_Raise.
  apply bind_Raise in H as [H|(n & _ & H)]; [by eapply columns_Raise|].
  apply mapM_Raise in H as (j & _ & H). by eapply getitem_Raise.
Qed.

(** The body of [determinant()], with the recursive call as a parameter. *)
Definition determinant_body (rec : matrix -> result Q) (m : matrix)
    : result Q :=
  sq <- is_square m ;;
  if negb sq then Raise ValueError
  else
    sz <- size m ;;
    if (fst sz =? 2) && (snd sz =? 2)
    then
      a <- getitem m 0 0 ;; d <- getitem m 1 1 ;;
      b <- getitem m 0 1 ;; c <- getitem m 1 0 ;;
      Ok (a * d - b * c)%Q
    else
      n <- columns m ;;
      ts <- mapM (fun c =>
                    x <- getitem m 0 c ;;
                    sub <- submatrix m [0%Z] [c] ;;
                    mn <- rec sub ;;
                    Ok (x * mn * neg_one_pow (c mod 2))%Q)
                 (py_range n) ;;
      Ok (py_sum ts).

Lemma determinant_fuel_S fuel m :
  determinant_fuel (S fuel) m = determinant_body (determinant_fuel fuel) m.
Proof. reflexivity. Qed.

(** If the recursive calls agree on the submatrices, so do the bodies. *)
Lemma determinant_body_ext (rec1 rec2 : matrix -> result Q) m :
  (forall c sub,
     0 < length m -> submatrix m [0%Z] [c] = Ok sub -> rec1 sub = rec2 sub) ->
  determinant_body rec1 m = determinant_body rec2 m.
Proof.
  intros Hrec. unfold determinant_body.
  destruct (is_square m) as [[]|] eqn:Hsq; simpl; try reflexivity.
  apply is_square_nonempty in Hsq.
  destruct (size m) as [sz|]; simpl; try reflexivity.
  destruct ((fst sz =? 2) && (snd sz =? 2)); [reflexivity|].
  destruct (columns m) as [n|]; simpl; try reflexivity.
  f_equal. apply mapM_ext. intros c _.
  destruct (getitem m 0 c); simpl; try reflexivity.
  destruct (submatrix m [0%Z] [c]) as [sub|] eqn:Hsub; simpl;
    try reflexivity.
  by rewrite (Hrec c sub).
Qed.


(** An exception of the body is [IndexError], [ValueError], or an
    exception of a recursive call. *)
Lemma determinant_body_Raise (rec : matrix -> result Q) m e :
  determinant_body rec m = Raise e ->
  e = IndexError \/ e = ValueError \/
  exists c sub,
    0 < length m /\ submatrix m [0%Z] [c] = Ok sub /\ rec sub = Raise e.
Proof.
  unfold determinant_body. intros H.
  apply bind_Raise in H as [H|(sq & Hsq & H)].
  { left. unfold is_square in H.
    apply bind_Raise in H as [H|(? & _ & [=])]. by eapply columns_Raise. }
  destruct sq; simpl in H; [|right; left; congruence].
  apply bind_Raise in H as [H|(sz & _ & H)].
  { left. unfold size in H.
    apply bind_Raise in H as [H|(? & _ & [=])]. by eapply columns_Raise. }
  destruct ((fst sz =? 2) && (snd sz =? 2)).
  - left. repeat (apply bind_Raise in H as [H|(? & _ & H)];
                  [by eapply getitem_Raise|]). discriminate.
  - apply bind_Raise in H as [H|(n & _ & H)]; [left; by eapply columns_Raise|].
    apply bind_Raise in H as [H|(ts & _ & [=])].
    apply mapM_Raise in H as (c & _ & H).
    apply bind_Raise in H as [H|(x & _ & H)]; [left; by eapply getitem_Raise|].
    apply bind_Raise in H as [H|(sub & Hsub & H)];
      [left; by eapply submatrix_Raise|].
    apply bind_Raise in H as [H|(mn & _ & [=])].
    right; right. exists c, sub. split; [|done].
    by eapply is_square_nonempty.
Qed.

Lemma determinant_fuel_enough fuel m :
  length m < fuel -> determinant_fuel fuel m <> Raise OutOfFuel.
Proof.
  revert m. induction fuel as [|fuel IH]; intros m Hlen; [lia|].
  rewrite determinant_fuel_S.
  intros [[=]|[[=]|(c & sub & Hm & Hsub & Hrec)]]%determinant_body_Raise.
  apply submatrix_row0_length in Hsub.
  apply (IH sub); [lia | done].
Qed.

(** More fuel than rows changes nothing. *)
Lemma determinant_fuel_irrelevant fuel1 fuel2 m :
  length m < fuel1 -> length m < fuel2 ->
  determinant_fuel fuel1 m = determinant_fuel fuel2 m.
Proof.
  revert fuel2 m. induction fuel1 as [|fuel1 IH]; intros fuel2 m H1 H2;
    [lia|]. destruct fuel2 as [|fuel2]; [lia|].
  rewrite !determinant_fuel_S.
  apply determinant_body_ext. intros c sub Hm Hsub.
  apply submatrix_row0_length in Hsub. apply IH; lia.
Qed.

(** [determinant()] never runs out of fuel. *)
Lemma determinant_total m : determinant m <> Raise OutOfFuel.
Proof. apply determinant_fuel_enough. unfold rows. lia. Qed.

(** The equation of the source: [determinant()] is its body with
    [minor(0, c)] for the recursive call. *)
Lemma determinant_unfold m :
  determinant m
  = (sq <- is_square m ;;
     if negb sq then Raise ValueError
     else
       sz <- size m ;;
       if (fst sz =? 2) && (snd sz =? 2)
       then
         a <- getitem m 0 0 ;; d <- getitem m 1 1 ;;
         b <- getitem m 0 1 ;; c <- getitem m 1 0 ;;
         Ok (a * d - b * c)%Q
       else
         n <- columns m ;;
         ts <- mapM (fun c =>
                       x <- getitem m 0 c ;;
                       mn <- minor m 0 c ;;
                       Ok (x * mn * neg_one_pow (c mod 2))%Q)
                    (py_range n) ;;
         Ok (py_sum ts)).
Proof.
  unfold determinant at 1. rewrite determinant_fuel_S.
  rewrite (determinant_body_ext _ determinant m).
  - unfold determinant_body, minor.
    destruct (is_square m) as [[]|]; simpl; try reflexivity.
    destruct (size m) as [sz|]; simpl; try reflexivity.
    destruct ((fst sz =? 2) && (snd sz =? 2)); [reflexivity|].
    destruct (columns m) as [n|]; simpl; try reflexivity.
    f_equal. apply mapM_ext. intros c _.
    destruct (getitem m 0 c); simpl; try reflexivity.
    by destruct (submatrix m [0%Z] [c]).
  - intros c sub Hm Hsub. apply submatrix_row0_length in Hsub.
    unfold determinant, rows. apply determinant_fuel_irrelevant; lia.
Qed.

(** ** [determinant] on square matrices *)

Lemma size_rect R C m : rect R C m -> 0 < R -> size m = Ok (R, C).
Proof.
  intros Hm HR. unfold size, rows. rewrite (columns_rect R C) by done.
  destruct Hm as [-> _]. reflexivity.
Qed.

Lemma is_square_rect R C m :
  rect R C m -> 0 < R -> is_square m = Ok (R =? C).
Proof.
  intros Hm HR. unfold is_square, rows. rewrite (columns_rect R C) by done.
  destruct Hm as [-> _]. reflexivity.
Qed.

Lemma rect_2_2 m : rect 2 2 m -> exists a b c d, m = [[a; b]; [c; d]].
Proof.
  intros [Hlen Hall]. destruct m as [|r1 [|r2 [|]]]; try discriminate.
  apply Forall_cons in Hall as [H1 Hall].
  apply Forall_cons in Hall as [H2 _].
  destruct r1 as [|a [|b [|]]]; try discriminate.
  destruct r2 as [|c [|d [|]]]; try discriminate.
  by exists a, b, c, d.
Qed.

Lemma determinant_2_2 (a b c d : Q) :
  determinant [[a; b]; [c; d]] = Ok (a * d - b * c)%Q.
Proof. reflexivity. Qed.

(** On a square matrix with at least two rows [determinant()] returns a
    number. *)
Lemma determinant_rect_Ok n :
  2 <= n -> forall m, rect n n m -> exists d, determinant m = Ok d.
Proof.
  induction n as [n IH] using lt_wf_ind. intros Hn m Hm.
  destruct (decide (n = 2)) as [->|Hne].
  { destruct (rect_2_2 m Hm) as (a & b & c & d & ->).
    eexists. apply determinant_2_2. }
  rewrite determinant_unfold.
  rewrite (is_square_rect n n), Nat.eqb_refl by (done || lia). simpl.
  rewrite (size_rect n n) by (done || lia). simpl.
  destruct (Nat.eqb_spec n 2) as [|_]; [lia|]. simpl.
  rewrite (columns_rect n n) by (done || lia). simpl.
  match goal with |- context [mapM ?f ?l] =>
    destruct (mapM_total f l) as [ts ->]; [|simpl; eauto] end.
  intros c Hc.
  rewrite (getitem_elt n n) by (done || apply In_py_range; exists 0; lia).
  simpl. apply In_py_range in Hc as (k & -> & Hk).
  destruct (submatrix_rect_shape n n m 0 k Hm) as (sub & Hsub & Hrect);
    [lia | lia |].
  unfold minor. change [0%Z] with [Z.of_nat 0]. rewrite Hsub. simpl.
  destruct (IH (n - 1) ltac:(lia) ltac:(lia) sub Hrect) as [d ->].
  simpl. eauto.
Qed.

(** The Laplace expansion along row 0 as the specification writes it: the
    sum over the columns [c], counted from [c0], of the element of row 0
    times the minor times [(-1)^c]. *)
Fixpoint laplace_from (c0 : nat) (row0 mins : list Q) : Q :=
  match row0, mins with
  | x :: row0', mn :: mins' =>
      (x * mn * Qpower (-1) (Z.of_nat c0) + laplace_from (S c0) row0' mins')%Q
  | _, _ => 0%Q
  end.

Definition laplace (row0 mins : list Q) : Q := laplace_from 0 row0 mins.

Lemma fold_left_Qplus (l : list Q) (a : Q) :
  (fold_left Qplus l a == a + fold_right Qplus 0 l)%Q.
Proof.
  revert a. induction l as [|x l IH]; intros a; simpl.
  - ring.
  - rewrite IH. ring.
Qed.

(** [(-1)**(c%2)] is [(-1)^c]. *)
Lemma neg_one_pow_mod (c : nat) :
  (neg_one_pow (Z.of_nat c mod 2) == Qpower (-1) (Z.of_nat c))%Q.
Proof.
  unfold neg_one_pow.
  rewrite (Z.div_mod (Z.of_nat c) 2) at 2 by lia.
  rewrite Qpower_plus by (intros H; discriminate H).
  rewrite Qpower_mult. change (Qpower (-1) 2) with 1%Q.
  rewrite Qpower_1. ring.
Qed.

Lemma laplace_mapM m : forall row mins k,
  (forall j x, row !! j = Some x ->
     getitem m 0 (Z.of_nat (k + j)) = Ok x) ->
  Forall2 (fun c mn => minor m 0 c = Ok mn)
          (map Z.of_nat (seq k (length row))) mins ->
  exists ts,
    mapM (fun c => x <- getitem m 0 c ;;
                   mn <- minor m 0 c ;;
                   Ok (x * mn * neg_one_pow (c mod 2))%Q)
         (map Z.of_nat (seq k (length row))) = Ok ts
    /\ (fold_right Qplus 0 ts == laplace_from k row mins)%Q.
Proof.
  induction row as [|x row IH]; intros mins k Hget Hmins; simpl in *.
  - exists []. split; [reflexivity|]. simpl. reflexivity.
  - inversion Hmins as [|? mn ? mins' Hmn Hmins']; subst.
    specialize (Hget 0 x eq_refl) as Hx. rewrite Nat.add_0_r in Hx.
    rewrite Hx, Hmn. simpl.
    destruct (IH mins' (S k)) as (ts & -> & Hts); [|done|].
    { intros j y Hj. specialize (Hget (S j) y Hj).
      by replace (S k + j) with (k + S j) by lia. }
    simpl. eexists. split; [reflexivity|]. simpl.
    rewrite Hts, neg_one_pow_mod. reflexivity.
Qed.

(** ** The constructor *)

(** On a rectangular, non-empty nested sequence the constructor stores a
    copy of it. *)
Lemma init_rect R C (rws : list (list Q)) :
  rect R C rws -> 0 < R -> 0 < C -> init rws = Ok rws.
Proof.
  intros Hr HR HC. unfold init. pose proof Hr as [Hlen _].
  rewrite Hlen. destruct (Nat.eqb_spec R 0) as [|_]; [lia|].
  rewrite py_index_0. destruct (rws !! 0) as [r0|] eqn:Hr0.
  2: { apply lookup_ge_None in Hr0. lia. }
  simpl. rewrite (rect_lookup _ _ _ _ _ Hr Hr0).
  destruct (Nat.eqb_spec C 0) as [|_]; [lia|].
  destruct (fill_spec R C
              (fun _ r c => row <- py_index rws r ;; py_index row c)
              (fun i j => elt rws (Z.of_nat i) (Z.of_nat j))
              (zero R C)) as (m' & -> & Hm' & Hcell).
  - intros cur i j Hi Hj _ _.
    apply (getitem_elt R C rws); [done | |]; apply In_py_range; eauto.
  - apply rect_zero.
  - f_equal. apply (rect_ext R C); [done | done |].
    intros i j Hi Hj. rewrite Hcell by done. unfold elt.
    rewrite !Nat2Z.id. by destruct (rect_cell R C rws i j) as [x ->].
Qed.

(** ** Claims about the determinant *)

(** C6.  For every 2x2 matrix [[a, b], [c, d]], [determinant()] returns
    [a*d - b*c]; for every square matrix of size [n >= 3] it returns the
    Laplace expansion along row 0, the sum over the columns [c] of the
    element [(0, c)] times [minor(0, c)] times [(-1)^c], every one of these
    minors being itself a number; and for every matrix whose numbers of
    rows and of columns differ it raises [ValueError] (the class's
    not-square error).  In particular the determinant of
    [Matrix(((4, 6), (3, 8)))] is 14. *)
Theorem determinant_spec (m : matrix) :
  (forall a b c d,
     m = [[a; b]; [c; d]] -> determinant m = Ok (a * d - b * c)%Q)
  /\ (forall n, 3 <= n -> rect n n m ->
        exists row0 mins d,
          m !! 0 = Some row0
          /\ Forall2 (fun c mn => minor m 0 c = Ok mn) (py_range n) mins
          /\ determinant m = Ok d
          /\ (d == laplace row0 mins)%Q)
  /\ (forall c, columns m = Ok c -> rows m <> c ->
        determinant m = Raise ValueError)
  /\ bind (init M1) determinant = Ok 14%Q.
Proof.
  split; [|split; [|split]].
  - intros a b c d ->. apply determinant_2_2.
  - intros n Hn Hm.
    destruct (lookup_lt_is_Some_2 m 0) as [row0 Hrow0];
      [destruct Hm; lia|].
    pose proof (rect_lookup _ _ _ _ _ Hm Hrow0) as Hlen0.
    destruct (mapM_total (fun c => minor m 0 c) (py_range n))
      as [mins Hmins].
    { intros c (k & -> & Hk)%In_py_range.
      destruct (submatrix_rect_shape n n m 0 k Hm) as (sub & Hsub & Hrect);
        [lia | lia |].
      unfold minor. change [0%Z] with [Z.of_nat 0]. rewrite Hsub. simpl.
      apply (determinant_rect_Ok (n - 1)); [lia | done]. }
    apply mapM_Forall2 in Hmins.
    destruct (laplace_mapM m row0 mins 0) as (ts & Hts & Hsum).
    { intros j x Hj.
      change (getitem m 0 (Z.of_nat (0 + j)))
        with (getitem m (Z.of_nat 0) (Z.of_nat j)).
      rewrite getitem_of_nat. unfold cell.
      by rewrite Hrow0, Hj. }
    { by rewrite Hlen0. }
    exists row0, mins, (py_sum ts). split; [done|]. split; [done|]. split.
    + rewrite determinant_unfold.
      rewrite (is_square_rect n n), Nat.eqb_refl by (done || lia). simpl.
      rewrite (size_rect n n) by (done || lia). simpl.
      destruct (Nat.eqb_spec n 2) as [|_]; [lia|]. simpl.
      rewrite (columns_rect n n) by (done || lia). simpl.
      rewrite Hlen0 in Hts. unfold py_range. by rewrite Hts.
    + unfold py_sum, laplace. rewrite fold_left_Qplus, Hsum. ring.
  - intros c Hc Hne. rewrite determinant_unfold. unfold is_square.
    rewrite Hc. simpl. by destruct (Nat.eqb_spec (rows m) c).
  - reflexivity.
Qed.

Lemma determinant_spec_witness :
  determinant M1 = Ok 14%Q
  /\ (exists row0 mins d,
        M2 !! 0 = Some row0
        /\ Forall2 (fun c mn => minor M2 0 c = Ok mn) (py_range 3) mins
        /\ determinant M2 = Ok d
        /\ (d == laplace row0 mins)%Q)
  /\ determinant [[1; 2]]%Q = Raise ValueError.
Proof.
  split; [|split].
  - exact (proj1 (determinant_spec M1) 4 6 3 8 eq_refl)%Q.
  - apply (proj1 (proj2 (determinant_spec M2)) 3); [lia|].
    split; [reflexivity | repeat constructor].
  - apply (proj1 (proj2 (proj2 (determinant_spec [[1; 2]]%Q))) 2);
      [reflexivity | unfold rows; simpl; lia].
Defined.

(** C10.  For every 1x1 matrix [[x]], which is square, [determinant()]
    returns no value: the expansion calls [minor(0, 0)], whose submatrix is
    the empty matrix; [determinant()] of the empty matrix reads [columns],
    which raises [IndexError]; so [minor(0, 0)] and [determinant()] end in
    [IndexError]. *)
Theorem determinant_1_1_raises (x : Q) :
  is_square [[x]] = Ok true
  /\ submatrix [[x]] [0%Z] [0%Z] = Ok []
  /\ columns [] = Raise IndexError
  /\ determinant [] = Raise IndexError
  /\ minor [[x]] 0 0 = Raise IndexError
  /\ determinant [[x]] = Raise IndexError.
Proof. repeat split; reflexivity. Qed.

(** ** Claims about the empty matrix *)

(** C4.  A construction input whose outer sequence is empty, or whose
    first inner sequence is empty, gives the empty matrix ([_list = []]),
    and [rows] is 0 on it; but [columns] reads [self._list[0]] and raises
    [IndexError] there, and so does [size]. *)
Theorem empty_matrix_columns_raises :
  init [] = Ok []
  /\ (forall rest, init ([] :: rest) = Ok [])
  /\ rows [] = 0
  /\ columns [] = Raise IndexError
  /\ size [] = Raise IndexError.
Proof. repeat split; reflexivity. Qed.

(** ** Claims about invertibility *)

(** [copy()] of a rectangular matrix with a row is an equal matrix. *)
Lemma copy_rect R C m : rect R C m -> 0 < R -> copy m = Ok m.
Proof.
  intros Hm HR. unfold copy. rewrite (size_rect R C) by done. simpl.
  destruct (fill_spec R C (fun _ r c => getitem m r c)
              (fun i j => elt m (Z.of_nat i) (Z.of_nat j))
              (zero R C)) as (m' & -> & Hm' & Hcell).
  - intros cur i j Hi Hj _ _.
    apply (getitem_elt R C m); [done | |]; apply In_py_range; eauto.
  - apply rect_zero.
  - f_equal. apply (rect_ext R C); [done | done |].
    intros i j Hi Hj. rewrite Hcell by done. unfold elt.
    rewrite !Nat2Z.id. by destruct (rect_cell R C m i j) as [x ->].
Qed.

(** What [is_invertible] computes: the comparison of the bound method with
    0 is false, so the property is [not self.is_square]. *)
Lemma is_invertible_unfold (m : matrix) :
  is_invertible m = bind (is_square m) (fun sq => Ok (negb sq)).
Proof.
  unfold is_invertible. destruct (is_square m) as [sq|]; simpl;
    [|reflexivity]. by rewrite orb_false_r.
Qed.

(** [inverse()] returns [None] on a matrix that is not square ... *)
Lemma inverse_not_square m c :
  columns m = Ok c -> rows m <> c -> inverse m = Ok None.
Proof.
  intros Hc Hne. unfold inverse, is_square. rewrite Hc. simpl.
  by destruct (Nat.eqb_spec (rows m) c).
Qed.

(** ... and on a square one whose determinant is 0. *)
Lemma inverse_singular m d :
  is_square m = Ok true -> determinant m = Ok d -> is_zero d = true ->
  inverse m = Ok None.
Proof.
  intros Hsq Hd Hz. unfold inverse. rewrite Hsq. simpl. rewrite Hd. simpl.
  by rewrite Hz.
Qed.

(** [fill] on a new matrix, with a function that does not read it. *)
Lemma fill_zero_spec R C (f : Z -> Z -> result Q) (g : nat -> nat -> Q) :
  (forall i j, i < R -> j < C -> f (Z.of_nat i) (Z.of_nat j) = Ok (g i j)) ->
  exists m', fill (fun _ => f) (zero R C) = Ok m' /\ rect R C m' /\
    forall i j, i < R -> j < C -> cell m' i j = Some (g i j).
Proof.
  intros Hf. apply fill_spec; [|apply rect_zero].
  intros cur i j Hi Hj _ _. by apply Hf.
Qed.

(** The value of [minor(i, j)], 0 if it raises. *)
Definition minor_val (m : matrix) (i j : nat) : Q :=
  match minor m (Z.of_nat i) (Z.of_nat j) with
  | Ok v => v
  | Raise _ => 0%Q
  end.

Lemma minor_rect_Ok n m i j :
  3 <= n -> rect n n m -> i < n -> j < n ->
  minor m (Z.of_nat i) (Z.of_nat j) = Ok (minor_val m i j).
Proof.
  intros Hn Hm Hi Hj. unfold minor_val.
  destruct (submatrix_rect_shape n n m i j Hm Hi Hj) as (sub & Hsub & Hrect).
  unfold minor. rewrite Hsub. simpl.
  by destruct (determinant_rect_Ok (n - 1) ltac:(lia) sub Hrect) as [d ->].
Qed.


(** C1.  [is_invertible] is [not self.is_square], whatever the
    determinant: on [M2], which is square with determinant 10 and for which
    [inverse()] returns a matrix, it is false; on the 1x2 matrix [[1, 2]],
    for which [inverse()] returns [None], it is true. *)
Theorem is_invertible_is_not_square :
  (forall m, is_invertible m = bind (is_square m) (fun sq => Ok (negb sq)))
  /\ is_square M2 = Ok true
  /\ determinant M2 = Ok 10%Q
  /\ (exists inv, inverse M2 = Ok (Some inv))
  /\ is_invertible M2 = Ok false
  /\ is_square [[1; 2]]%Q = Ok false
  /\ inverse [[1; 2]]%Q = Ok None
  /\ is_invertible [[1; 2]]%Q = Ok true.
Proof.
  split; [exact is_invertible_unfold|].
  repeat split; try reflexivity.
  eexists. vm_compute. reflexivity.
Qed.

(** C2.  For every 2x2 matrix [[a, b], [c, d]] whose determinant
    [a*d - b*c] is not 0, [inverse()] returns no matrix: the first minor it
    computes is the determinant of a 1x1 matrix, which raises
    [IndexError]. *)
Theorem inverse_2_2_raises (a b c d : Q) :
  is_zero (a * d - b * c) = false ->
  inverse [[a; b]; [c; d]] = Raise IndexError.
Proof.
  intros Hdet. unfold inverse.
  change (is_square [[a; b]; [c; d]]) with (Ok (A:=bool) true).
  cbn [bind]. rewrite determinant_2_2. cbn [bind]. rewrite Hdet.
  reflexivity.
Qed.

Lemma inverse_2_2_raises_witness :
  is_zero (4 * 8 - 6 * 3) = false /\ inverse M1 = Raise IndexError.
Proof.
  split; [reflexivity|].
  exact (inverse_2_2_raises 4 6 3 8 eq_refl)%Q.
Defined.

(** The scenario of the specification, in exact arithmetic: [M2] times its
    inverse is the identity matrix. *)
Example M2_times_inverse_is_identity :
  exists inv p,
    inverse M2 = Ok (Some inv) /\ matmul M2 inv = Ok p
    /\ is_identity p = Ok true.
Proof.
  eexists _, _. split; [vm_compute; reflexivity|].
  split; [vm_compute; reflexivity|]. vm_compute. reflexivity.
Qed.

(** X27.  For every 3x3 matrix whose determinant is not 0, in exact
    arithmetic:
    [inverse()] returns a matrix, and the matrix times it is the identity
    matrix. *)
Lemma inverse_3_3_correct (a b c d e f g h i : Q) :
  let A : matrix := [[a; b; c]; [d; e; f]; [g; h; i]] in
  forall det, determinant A = Ok det -> is_zero det = false ->
  exists inv p,
    inverse A = Ok (Some inv) /\ matmul A inv = Ok p /\
    forall r k, r < 3 -> k < 3 ->
      (elt p (Z.of_nat r) (Z.of_nat k) == if r =? k then 1 else 0)%Q.
Proof.
  intros A det Hdet Hz.
  unfold inverse. change (is_square A) with (Ok (A:=bool) true). cbn [bind].
  rewrite Hdet. cbn [bind]. rewrite Hz.
  cbv -[Qplus Qmult Qminus Qdiv Qinv Qopp Qeq] in Hdet |- *.
  injection Hdet as Hdet.
  eexists _, _. split; [reflexivity|]. split; [reflexivity|].
  intros r k Hr Hk. unfold is_zero in Hz.
  assert (Hnz : ~ (det == 0)%Q).
  { intros Heq. apply Qeq_bool_iff in Heq. congruence. }
  destruct r as [|[|[|]]]; try lia; destruct k as [|[|[|]]]; try lia;
    cbv -[Qplus Qmult Qminus Qdiv Qinv Qopp Qeq];
    rewrite <- Hdet in Hnz |- *;
    field; intros Heq; apply Hnz; (etransitivity; [|exact Heq]); ring.
Qed.

(** C5.  [inverse()] raises [IndexError], instead of returning a matrix or
    [None], on every 1x1 matrix, on the empty matrix, and on the invertible
    2x2 matrix [M1] (determinant 14). *)
Theorem inverse_raises_on_small_matrices :
  (forall x, inverse [[x]] = Raise IndexError)
  /\ inverse [] = Raise IndexError
  /\ is_square M1 = Ok true
  /\ determinant M1 = Ok 14%Q
  /\ inverse M1 = Raise IndexError.
Proof. repeat split; reflexivity. Qed.

(** ** Claims about exponentiation *)

Definition D2 : matrix := [[2; 0; 0]; [0; 1; 0]; [0; 0; 1]]%Q.

(** With exponent -2 the loop multiplies the inverse once by [self]. *)
Lemma pow_minus_2 m inv :
  is_square m = Ok true -> copy m = Ok m -> inverse m = Ok (Some inv) ->
  pow m (-2) = bind (matmul inv m) (fun r => Ok (Some r)).
Proof.
  intros Hsq Hcopy Hinv. unfold pow. rewrite Hsq. simpl.
  rewrite Hcopy. simpl. rewrite Hinv. simpl.
  by destruct (matmul inv m).
Qed.

(** C3.  On the invertible matrix [D2 = diag(2, 1, 1)], [D2 ** -1] is the
    inverse, but [D2 ** -2] is the inverse times [D2] itself, the identity
    matrix, not the inverse times the inverse, whose first element is
    1/4. *)
Theorem pow_minus_2_is_not_inverse_squared :
  exists inv r sq,
    inverse D2 = Ok (Some inv)
    /\ pow D2 (-1) = Ok (Some inv)
    /\ pow D2 (-2) = Ok (Some r)
    /\ matmul inv D2 = Ok r
    /\ matmul inv inv = Ok sq
    /\ is_identity r = Ok true
    /\ (elt r 0 0 == 1)%Q
    /\ (elt sq 0 0 == 1 # 4)%Q.
Proof.
  eexists _, _, _.
  split; [vm_compute; reflexivity|].
  split; [vm_compute; reflexivity|].
  split; [vm_compute; reflexivity|].
  split; [vm_compute; reflexivity|].
  split; [vm_compute; reflexivity|].
  split; [vm_compute; reflexivity|].
  split; vm_compute; reflexivity.
Qed.

(** ** Claims about the echelon form *)

(** With at most one row there is no row to scan. *)
Lemma is_echelon_short m : length m <= 1 -> is_echelon m = Ok true.
Proof.
  intros Hlen. unfold is_echelon, rows.
  by replace (length m - 1) with 0 by lia.
Qed.

(** C7.  [is_echelon] scans the rows of [range(self.rows-1)], so it never
    looks at the last row as a row of its own: a zero row followed by a
    last row that is not zero is accepted.  (A zero row followed by a row
    that is not the last one is rejected.) *)
Theorem is_echelon_misses_last_row :
  is_echelon [[0; 0]; [1; 1]]%Q = Ok true
  /\ is_echelon [[1; 0]; [0; 0]; [0; 1]]%Q = Ok true
  /\ is_echelon [[0; 0]; [1; 1]; [0; 0]]%Q = Ok false.
Proof. repeat split; reflexivity. Qed.

(** ** Claims about slicing *)

(** The normalisation of a slice bound as the specification words it: an
    absent bound is [absent]; a negative one has the dimension added. *)
Definition slice_bound (absent : Z) (dim : nat) (s : option Z) : Z :=
  match s with
  | None => absent
  | Some v => if (v <? 0)%Z then (v + Z.of_nat dim)%Z else v
  end.

Lemma slice_start_Ok s dim :
  slice_start s (Ok dim) = Ok (slice_bound 0 dim s).
Proof. destruct s as [v|]; simpl; [|reflexivity]. by destruct (v <? 0)%Z. Qed.

Lemma slice_stop_Ok s dim :
  slice_stop s (Ok dim) = Ok (slice_bound (Z.of_nat dim) dim s).
Proof. destruct s as [v|]; simpl; [|reflexivity]. by destruct (v <? 0)%Z. Qed.

(** C8, as the code has it.  On a rectangular matrix with at least one
    row, an absent start is 0, an absent stop is the dimension, a negative
    start or stop has the dimension added.  If the extent is empty (fewer
    than one row or one column) the result is the empty matrix.  Otherwise,
    if the bounds lie inside the matrix, the result is the matrix of the
    selected region.  [M3[1:, 2:-1]] is the 2x2 matrix of rows 1-2 and
    columns 2-3 of [M3]. *)
Theorem getitem_slice_spec (m : matrix) (R C : nat) (i j : slice) :
  rect R C m -> 0 < R ->
  let istart := slice_bound 0 R (start i) in
  let istop := slice_bound (Z.of_nat R) R (stop i) in
  let jstart := slice_bound 0 C (start j) in
  let jstop := slice_bound (Z.of_nat C) C (stop j) in
  let nrows := Z.to_nat (istop - istart) in
  let ncols := Z.to_nat (jstop - jstart) in
  ((istop - istart < 1 \/ jstop - jstart < 1)%Z ->
     getitem_slice m i j = Ok [])
  /\ ((1 <= istop - istart)%Z -> (1 <= jstop - jstart)%Z ->
      (0 <= istart)%Z -> (istop <= Z.of_nat R)%Z ->
      (0 <= jstart)%Z -> (jstop <= Z.of_nat C)%Z ->
      exists m',
        getitem_slice m i j = Ok m' /\ rect nrows ncols m' /\
        forall r c, r < nrows -> c < ncols ->
          cell m' r c = cell m (Z.to_nat istart + r) (Z.to_nat jstart + c))
  /\ getitem_slice M3 (Slice (Some 1%Z) None) (Slice (Some 2%Z) (Some (-1)%Z))
     = Ok [[1; 4]; [0; 3]]%Q.
Proof.
  intros Hm HR istart istop jstart jstop nrows ncols.
  assert (Hunfold : getitem_slice m i j
    = if ((istop - istart <? 1) || (jstop - jstart <? 1))%Z then Ok []
      else fill (fun _ r c => getitem m (istart + r) (jstart + c))
                (zero nrows ncols)).
  { unfold getitem_slice. rewrite (columns_rect R C m Hm HR).
    unfold rows. destruct Hm as [-> _].
    rewrite !slice_start_Ok, !slice_stop_Ok. simpl.
    fold istart istop jstart jstop.
    by destruct ((istop - istart <? 1) || (jstop - jstart <? 1))%Z. }
  split; [|split].
  - intros Hempty. rewrite Hunfold.
    destruct (Z.ltb_spec (istop - istart) 1),
             (Z.ltb_spec (jstop - jstart) 1); simpl; try reflexivity. lia.
  - intros Hr Hc Hi0 Hi1 Hj0 Hj1. rewrite Hunfold.
    destruct (Z.ltb_spec (istop - istart) 1); [lia|].
    destruct (Z.ltb_spec (jstop - jstart) 1); [lia|]. simpl.
    destruct (fill_spec nrows ncols
                (fun _ r c => getitem m (istart + r) (jstart + c))
                (fun r c => elt m (istart + Z.of_nat r)
                                  (jstart + Z.of_nat c))
                (zero nrows ncols)) as (m' & -> & Hm' & Hcell).
    + intros cur r c Hr' Hc' _ _. apply (getitem_elt R C m _ _ Hm).
      * apply In_py_range. exists (Z.to_nat istart + r). lia.
      * apply In_py_range. exists (Z.to_nat jstart + c). lia.
    + apply rect_zero.
    + exists m'. split; [done|]. split; [done|]. intros r c Hr' Hc'.
      rewrite Hcell by done. unfold elt.
      replace (Z.to_nat (istart + Z.of_nat r))
        with (Z.to_nat istart + r) by lia.
      replace (Z.to_nat (jstart + Z.of_nat c))
        with (Z.to_nat jstart + c) by lia.
      destruct (rect_cell R C m (Z.to_nat istart + r) (Z.to_nat jstart + c))
        as [x ->]; [done | lia | lia | reflexivity].
  - reflexivity.
Qed.

Lemma getitem_slice_spec_witness :
  rect 3 5 M3 /\ 0 < 3 /\
  (exists m',
     getitem_slice M3 (Slice (Some 1%Z) None) (Slice (Some 2%Z) (Some (-1)%Z))
     = Ok m' /\ rect 2 2 m' /\
     forall r c, r < 2 -> c < 2 -> cell m' r c = cell M3 (1 + r) (2 + c))
  /\ getitem_slice M3 (Slice (Some 3%Z) None) (Slice None None) = Ok [].
Proof.
  assert (H35 : rect 3 5 M3) by (split; [reflexivity | repeat constructor]).
  split; [exact H35|]. split; [lia|]. split.
  - apply (proj1 (proj2
      (getitem_slice_spec M3 3 5 (Slice (Some 1%Z) None)
         (Slice (Some 2%Z) (Some (-1)%Z)) H35 ltac:(lia))));
      simpl; lia.
  - apply (proj1
      (getitem_slice_spec M3 3 5 (Slice (Some 3%Z) None)
         (Slice None None) H35 ltac:(lia))).
    simpl. lia.
Defined.

(** C8 as stated fails: a stop beyond the dimension is not clamped, so the
    1x1 matrix [[1]] sliced with [0:2, 0:1] raises [IndexError] and returns
    no matrix; and the full slice [:, :] of the empty matrix raises
    [IndexError] when it reads [columns]. *)
Lemma getitem_slice_out_of_range_raises :
  getitem_slice [[1%Q]] (Slice (Some 0%Z) (Some 2%Z))
                        (Slice (Some 0%Z) (Some 1%Z))
  = Raise IndexError
  /\ getitem_slice [] (Slice None None) (Slice None None) = Raise IndexError.
Proof. split; reflexivity. Qed.

(** * The in-place operators, over a store of row objects

    A row is a Python list object; the store holds the current contents of
    every row object, by address.  A [Matrix] object is represented by its
    [_list], the list of the addresses of its rows: the class assigns
    [_list] in [__init__] and in [raw] and never changes that outer list
    afterwards; every write is [self._list[i][j] = val], a write into a row
    object.  Two matrices, or two rows of one matrix built with [raw], may
    share a row object. *)

Module Store.

Abbreviation heap := (list (list Q)).
Abbreviation mref := (list nat).

(** Computations that read and write the store and may raise; after an
    exception the store is as the writes before it left it. *)
Definition M (A : Type) : Type := heap -> result A * heap.

Definition ret {A} (a : A) : M A := fun h => (Ok a, h).
Definition raise {A} (e : exn) : M A := fun h => (Raise e, h).
Definition read {A} (f : heap -> result A) : M A := fun h => (f h, h).
Definition sbind {A B} (x : M A) (k : A -> M B) : M B :=
  fun h => match x h with
           | (Ok a, h') => k a h'
           | (Raise e, h') => (Raise e, h')
           end.

Notation "x <~ e ;; k" := (sbind e (fun x => k))
  (at level 100, e at next level, right associativity).

(** Property [rows]. *)
Definition rows (m : mref) : nat := length m.

(** Property [columns]: [len(self._list[0])]. *)
Definition columns (m : mref) (h : heap) : result nat :=
  l <- py_index m 0 ;; Ok (length (h !!! l)).

(** Property [size]. *)
Definition size (m : mref) (h : heap) : result (nat * nat) :=
  c <- columns m h ;; Ok (rows m, c).

(** [__getitem__] on a pair of integers. *)
Definition getitem (m : mref) (i j : Z) (h : heap) : result Q :=
  l <- py_index m i ;; py_index (h !!! l) j.

(** [__setitem__]: the row object [self._list[i]] is written at [j]. *)
Definition setitem (m : mref) (i j : Z) (val : Q) : M unit :=
  fun h =>
    match py_index m i with
    | Raise e => (Raise e, h)
    | Ok l =>
        match py_pos (length (h !!! l)) j with
        | None => (Raise IndexError, h)
        | Some k => (Ok tt, <[l := <[k := val]> (h !!! l)]> h)
        end
    end.

(** [Matrix.zero(m, n)] allocates [m] new row objects. *)
Definition zero (m n : nat) : M mref :=
  fun h => (Ok (seq (length h) m), h ++ replicate m (replicate n 0%Q)).

(** [fill(func)]; [func] reads the store as it is when it is called. *)
Fixpoint fill_row (func : Z -> Z -> heap -> result Q) (m : mref) (r : Z)
    (cs : list Z) : M unit :=
  match cs with
  | [] => ret tt
  | c :: cs' =>
      v <~ read (func r c) ;; _ <~ setitem m r c v ;; fill_row func m r cs'
  end.

Fixpoint fill_rows (func : Z -> Z -> heap -> result Q) (m : mref)
    (rs : list Z) : M unit :=
  match rs with
  | [] => ret tt
  | r :: rs' =>
      n <~ read (columns m) ;;
      _ <~ fill_row func m r (py_range n) ;;
      fill_rows func m rs'
  end.

Definition fill (func : Z -> Z -> heap -> result Q) (m : mref) : M mref :=
  _ <~ fill_rows func m (py_range (rows m)) ;; ret m.

(** [copy()]. *)
Definition copy (m : mref) : M mref :=
  sz <~ read (size m) ;;
  new <~ zero (fst sz) (snd sz) ;;
  fill (fun r c => getitem m r c) new.

(** [__iadd__]. *)
Definition iadd (self other : mref) : M mref :=
  s1 <~ read (size self) ;;
  s2 <~ read (size other) ;;
  if negb (bool_decide (s1 = s2)) then raise ValueError
  else fill (fun r c h => a <- getitem self r c h ;;
                          b <- getitem other r c h ;;
                          Ok (a + b)%Q)
            self.

(** [__add__]: [self.copy().__iadd__(other)]. *)
Definition add (self other : mref) : M mref :=
  new <~ copy self ;; iadd new other.

(** ** What a write can change *)

(** The row objects outside [m] are as they were, and no row object was
    created or lost. *)
Definition unchanged_outside (m : mref) (h h' : heap) : Prop :=
  length h' = length h /\ forall l, l ∉ m -> h' !! l = h !! l.

Lemma unchanged_outside_refl m h : unchanged_outside m h h.
Proof. by split. Qed.

Lemma unchanged_outside_trans m h1 h2 h3 :
  unchanged_outside m h1 h2 -> unchanged_outside m h2 h3 ->
  unchanged_outside m h1 h3.
Proof.
  intros [Hl1 H1] [Hl2 H2]. split; [congruence|].
  intros l Hl. by rewrite H2, H1.
Qed.

Lemma py_index_elem_of {A} (l : list A) (i : Z) (x : A) :
  py_index l i = Ok x -> x ∈ l.
Proof.
  unfold py_index. destruct (py_pos _ _) as [k|]; [|discriminate].
  destruct (l !! k) as [y|] eqn:Hk; [|discriminate].
  intros [= <-]. by eapply list_elem_of_lookup_2.
Qed.

Lemma setitem_frame m i j v h r h' :
  setitem m i j v h = (r, h') -> unchanged_outside m h h'.
Proof.
  unfold setitem. destruct (py_index m i) as [l|e] eqn:Hl.
  - apply py_index_elem_of in Hl.
    destruct (py_pos _ j); intros [= <- <-];
      [|apply unchanged_outside_refl].
    split; [by rewrite length_insert|]. intros l' Hl'.
    apply list_lookup_insert_ne. by intros ->.
  - intros [= <- <-]. apply unchanged_outside_refl.
Qed.

Lemma store_setitem_Raise m i j v h e h' :
  setitem m i j v h = (Raise e, h') -> e = IndexError /\ h' = h.
Proof.
  unfold setitem. destruct (py_index m i) as [l|e'] eqn:Hl.
  - destruct (py_pos _ j); intros [= <- <-]; done.
  - intros [= <- <-]. split; [|done]. by eapply py_index_Raise.
Qed.

Section Fill.
Variable func : Z -> Z -> heap -> result Q.
Variable m : mref.

Lemma fill_row_frame r cs h res h' :
  fill_row func m r cs h = (res, h') -> unchanged_outside m h h'.
Proof.
  revert h. induction cs as [|c cs IH]; intros h; simpl.
  - intros [= <- <-]. apply unchanged_outside_refl.
  - unfold sbind, read. destruct (func r c h) as [v|e].
    + destruct (setitem m r c v h) as [[[]|e] h1] eqn:Hset.
      * intros H. eapply unchanged_outside_trans;
          [by eapply setitem_frame | by eapply IH].
      * intros [= <- <-]. by eapply setitem_frame.
    + intros [= <- <-]. apply unchanged_outside_refl.
Qed.

Lemma fill_rows_frame rs h res h' :
  fill_rows func m rs h = (res, h') -> unchanged_outside m h h'.
Proof.
  revert h. induction rs as [|r rs IH]; intros h; simpl.
  - intros [= <- <-]. apply unchanged_outside_refl.
  - unfold sbind, read. destruct (columns m h) as [n|e].
    + destruct (fill_row func m r (py_range n) h) as [[[]|e] h1]
        eqn:Hrow.
      * intros H. eapply unchanged_outside_trans;
          [by eapply fill_row_frame | by eapply IH].
      * intros [= <- <-]. by eapply fill_row_frame.
    + intros [= <- <-]. apply unchanged_outside_refl.
Qed.

(** [fill] writes into the rows of the matrix it fills, and nowhere
    else. *)
Lemma fill_frame h res h' :
  fill func m h = (res, h') -> unchanged_outside m h h'.
Proof.
  unfold fill, sbind, ret.
  destruct (fill_rows func m (py_range (rows m)) h) as [[[]|e] h1]
    eqn:Hrows; intros [= <- <-]; by eapply fill_rows_frame.
Qed.

(** [fill] raises [func]'s exceptions or [IndexError]. *)
Hypothesis func_Raise :
  forall r c h e, func r c h = Raise e -> e = IndexError.

Lemma fill_row_Raise r cs h e h' :
  fill_row func m r cs h = (Raise e, h') -> e = IndexError.
Proof.
  revert h. induction cs as [|c cs IH]; intros h; simpl.
  - discriminate.
  - unfold sbind, read. destruct (func r c h) as [v|e0] eqn:Hf.
    + destruct (setitem m r c v h) as [[[]|e1] h1] eqn:Hset.
      * apply IH.
      * intros [= <- <-]. by apply store_setitem_Raise in Hset as [-> _].
    + intros [= <- <-]. by eapply func_Raise.
Qed.

Lemma fill_rows_Raise rs h e h' :
  fill_rows func m rs h = (Raise e, h') -> e = IndexError.
Proof.
  revert h. induction rs as [|r rs IH]; intros h; simpl.
  - discriminate.
  - unfold sbind, read. destruct (columns m h) as [n|e0] eqn:Hc.
    + destruct (fill_row func m r (py_range n) h) as [[[]|e1] h1]
        eqn:Hrow.
      * apply IH.
      * intros [= <- <-]. by eapply fill_row_Raise.
    + intros [= <- <-]. unfold columns in Hc.
      apply bind_Raise in Hc as [Hc|(l & _ & [=])].
      by eapply py_index_Raise.
Qed.

Lemma fill_Raise h e h' :
  fill func m h = (Raise e, h') -> e = IndexError.
Proof.
  unfold fill, sbind, ret.
  destruct (fill_rows func m (py_range (rows m)) h) as [[[]|e1] h1]
    eqn:Hrows; intros [= <- <-]. by eapply fill_rows_Raise.
Qed.
End Fill.

(** ** Addition *)

Lemma store_getitem_Raise m i j h e : getitem m i j h = Raise e -> e = IndexError.
Proof.
  unfold getitem. intros [H|(l & _ & H)]%bind_Raise;
    by eapply py_index_Raise.
Qed.

(** [+=] returns the matrix it was applied to and writes only into its
    rows. *)
Lemma iadd_frame self other h res h' :
  iadd self other h = (res, h') ->
  unchanged_outside self h h' /\ forall new, res = Ok new -> new = self.
Proof.
  unfold iadd, sbind, read, raise.
  destruct (size self h) as [s1|e1];
    [|intros [= <- <-]; split; [apply unchanged_outside_refl | done]].
  destruct (size other h) as [s2|e2];
    [|intros [= <- <-]; split; [apply unchanged_outside_refl | done]].
  destruct (negb (bool_decide (s1 = s2)));
    [intros [= <- <-]; split; [apply unchanged_outside_refl | done]|].
  intros H. split; [by eapply fill_frame|].
  intros new ->. unfold fill, sbind, ret in H.
  destruct (fill_rows _ self _ h) as [[[]|e] h1]; congruence.
Qed.

(** X28.  When both shapes can be read, [+=] raises [ValueError] exactly
    when they differ, and then the store is as it was. *)
Lemma iadd_ValueError self other h s1 s2 :
  size self h = Ok s1 -> size other h = Ok s2 ->
  (fst (iadd self other h) = Raise ValueError <-> s1 <> s2)
  /\ (s1 <> s2 -> iadd self other h = (Raise ValueError, h)).
Proof.
  intros H1 H2. unfold iadd, sbind, read, raise. rewrite H1, H2.
  destruct (decide (s1 = s2)) as [Heq|Hne].
  - rewrite bool_decide_eq_true_2 by done. simpl.
    split; [|done]. split; [|done]. intros Hfill.
    match type of Hfill with fst ?x = _ =>
      destruct x as [res h'] eqn:Hx end.
    simpl in Hfill. subst res. apply fill_Raise in Hx; [discriminate|].
    intros r c h0 e He.
    apply bind_Raise in He as [He|(a & _ & He)];
      [by eapply store_getitem_Raise|].
    apply bind_Raise in He as [He|(b & _ & [=])].
    by eapply store_getitem_Raise.
  - rewrite bool_decide_eq_false_2 by done. simpl. done.
Qed.

(** [copy()] leaves every existing row object as it was; the rows of the
    copy are new objects. *)
Lemma copy_frame m h res h' :
  copy m h = (res, h') ->
  (forall l, l < length h -> h' !! l = h !! l)
  /\ length h <= length h'
  /\ forall new, res = Ok new -> forall l, l ∈ new -> length h <= l.
Proof.
  unfold copy, sbind, read, zero.
  destruct (size m h) as [sz|e]; [|intros [= <- <-]; done].
  set (new := seq (length h) (fst sz)).
  set (h1 := h ++ replicate (fst sz) (replicate (snd sz) 0%Q)).
  intros Hfill. pose proof (fill_frame _ _ _ _ _ Hfill) as [Hlen Hout].
  assert (Hnew : forall l, l ∈ new -> length h <= l).
  { intros l Hl. apply list_elem_of_In, in_seq in Hl. lia. }
  split; [|split].
  - intros l Hl. rewrite Hout.
    + subst h1. by rewrite lookup_app_l.
    + intros Hin%Hnew. lia.
  - rewrite Hlen. subst h1. rewrite length_app. lia.
  - intros new' ->. unfold fill, sbind, ret in Hfill.
    destruct (fill_rows _ new _ h1) as [[[]|e] h2]; [|discriminate].
    injection Hfill as <- _. exact Hnew.
Qed.

(** [A + B] leaves every row object that existed before, those of [A]
    and [B] among them, as it was; the rows of the result are new
    objects. *)
Lemma add_frame self other h res h' :
  add self other h = (res, h') ->
  (forall l, l < length h -> h' !! l = h !! l)
  /\ forall new, res = Ok new -> forall l, l ∈ new -> length h <= l.
Proof.
  unfold add, sbind.
  destruct (copy self h) as [[new|e] h1] eqn:Hcopy.
  - apply copy_frame in Hcopy as (Hold & Hlen & Hnew).
    specialize (Hnew new eq_refl).
    intros [[_ Hout] Hres]%iadd_frame. split.
    + intros l Hl. rewrite Hout; [by apply Hold|].
      intros Hin%Hnew. lia.
    + intros new' ->%Hres. exact Hnew.
  - apply copy_frame in Hcopy as (Hold & _ & _).
    intros [= <- <-]. split; [exact Hold | done].
Qed.

(** C9.  [A += B] with [A] the empty matrix and [B] a 1x1 matrix (row
    object 0 of the store): the shapes differ, but reading [A.size]
    raises [IndexError] before the shapes are compared, so the error is
    not the [ValueError] of the dimension check; likewise with the
    operands exchanged.  The store is unchanged. *)
Theorem iadd_empty_raises_IndexError :
  let h : heap := [[1%Q]] in
  size [] h = Raise IndexError
  /\ size [0] h = Ok (1, 1)
  /\ iadd [] [0] h = (Raise IndexError, h)
  /\ iadd [0] [] h = (Raise IndexError, h).
Proof. repeat split; reflexivity. Qed.

End Store.

(** * The two embeddings agree

    A matrix whose rows are private objects is the store that holds
    exactly its rows, row [k] at address [k].  On that store, [Store.fill]
    computes what [fill] computes on the value: the same matrix, or the same
    exception. *)

Definition private_rows (m : matrix) : list nat := seq 0 (length m).

(** The value-level result [p] and the store-level result [s] agree. *)
Definition agree {A} (a : A) (p : result matrix) (s : result A * matrix)
    : Prop :=
  match p with
  | Ok m' => s = (Ok a, m')
  | Raise e => fst s = Raise e
  end.

Lemma py_index_seq (n : nat) (i : Z) :
  py_index (seq 0 n) i
  = match py_pos n i with Some k => Ok k | None => Raise IndexError end.
Proof.
  unfold py_index. rewrite length_seq.
  destruct (py_pos n i) as [k|] eqn:Hk; [|reflexivity].
  apply py_pos_lt in Hk. by rewrite lookup_seq_lt.
Qed.

Lemma py_index_pos {A} (l : list A) (i : Z) (x : A) :
  py_index l i = Ok x ->
  exists k, py_pos (length l) i = Some k /\ l !! k = Some x.
Proof.
  unfold py_index. destruct (py_pos _ _) as [k|]; [|discriminate].
  destruct (l !! k) as [y|] eqn:Hk; [|discriminate].
  intros [= <-]. eauto.
Qed.

Lemma py_index_Raise_pos {A} (l : list A) (i : Z) (e : exn) :
  py_index l i = Raise e -> py_pos (length l) i = None.
Proof.
  unfold py_index. destruct (py_pos _ _) as [k|] eqn:Hk; [|done].
  apply py_pos_lt in Hk. apply lookup_lt_is_Some_2 in Hk as [x ->].
  discriminate.
Qed.

Lemma columns_private (m : matrix) :
  Store.columns (private_rows m) m = columns m.
Proof.
  unfold Store.columns, columns, private_rows. rewrite py_index_seq.
  destruct (py_index m 0) as [r0|e] eqn:H0.
  - apply py_index_pos in H0 as (k & -> & Hk). simpl.
    by rewrite (list_lookup_total_correct _ _ _ Hk).
  - apply py_index_Raise in H0 as He. subst e.
    by rewrite (py_index_Raise_pos _ _ _ H0).
Qed.

Lemma getitem_private (m : matrix) (i j : Z) :
  Store.getitem (private_rows m) i j m = getitem m i j.
Proof.
  unfold Store.getitem, getitem, private_rows. rewrite py_index_seq.
  destruct (py_index m i) as [row|e] eqn:Hi.
  - apply py_index_pos in Hi as (k & -> & Hk). simpl.
    by rewrite (list_lookup_total_correct _ _ _ Hk).
  - apply py_index_Raise in Hi as He. subst e.
    by rewrite (py_index_Raise_pos _ _ _ Hi).
Qed.

Lemma setitem_private (m : matrix) (i j : Z) (v : Q) :
  agree tt (setitem m i j v) (Store.setitem (private_rows m) i j v m).
Proof.
  unfold Store.setitem, setitem, private_rows. rewrite py_index_seq.
  destruct (py_index m i) as [row|e] eqn:Hi.
  - apply py_index_pos in Hi as (k & -> & Hk). simpl.
    rewrite (list_lookup_total_correct _ _ _ Hk).
    by destruct (py_pos (length row) j).
  - apply py_index_Raise in Hi as He. subst e.
    by rewrite (py_index_Raise_pos _ _ _ Hi).
Qed.

Lemma setitem_length m i j v m' :
  setitem m i j v = Ok m' -> length m' = length m.
Proof.
  unfold setitem. intros (row & _ & H)%bind_Ok.
  destruct (py_pos (length m) i); [|discriminate].
  destruct (py_pos (length row) j); [|discriminate].
  injection H as <-. apply length_insert.
Qed.

Section Agreement.
Variable func : matrix -> Z -> Z -> result Q.
Variable n : nat.

Lemma fill_row_private (r : Z) (cs : list Z) :
  forall m, length m = n ->
    agree tt (fill_row func r cs m)
          (Store.fill_row (fun r c h => func h r c) (seq 0 n) r cs m)
    /\ forall m', fill_row func r cs m = Ok m' -> length m' = n.
Proof.
  induction cs as [|c cs IH]; intros m Hlen; simpl.
  - split; [reflexivity|]. by intros m' [= <-].
  - unfold Store.sbind, Store.read.
    destruct (func m r c) as [v|e]; simpl; [|done].
    pose proof (setitem_private m r c v) as Hset.
    unfold private_rows in Hset. rewrite Hlen in Hset.
    destruct (setitem m r c v) as [m1|e] eqn:Hs; simpl in *.
    + rewrite Hset. apply IH. apply setitem_length in Hs. congruence.
    + destruct (Store.setitem (seq 0 n) r c v m) as [[[]|e'] h1];
        simpl in *; [discriminate|]. split; [congruence | done].
Qed.

Lemma fill_rows_private (rs : list Z) :
  forall m, length m = n ->
    agree tt (fill_rows func rs m)
          (Store.fill_rows (fun r c h => func h r c) (seq 0 n) rs m).
Proof.
  induction rs as [|r rs IH]; intros m Hlen; simpl; [reflexivity|].
  unfold Store.sbind, Store.read.
  pose proof (columns_private m) as Hcol. unfold private_rows in Hcol.
  rewrite Hlen in Hcol. rewrite Hcol.
  destruct (columns m) as [k|e]; simpl; [|done].
  destruct (fill_row_private r (py_range k) m Hlen) as [Hrow Hlen'].
  destruct (fill_row func r (py_range k) m) as [m1|e]; simpl in *.
  - rewrite Hrow. apply IH. by apply Hlen'.
  - match goal with |- context [Store.fill_row ?f ?a ?b ?c ?d] =>
      destruct (Store.fill_row f a b c d) as [[[]|e'] h1] end;
      simpl in *; [discriminate | congruence].
Qed.
End Agreement.

(** [Store.fill] on private rows is [fill]. *)
Theorem fill_private (func : matrix -> Z -> Z -> result Q) (m : matrix) :
  agree (private_rows m) (fill func m)
        (Store.fill (fun r c h => func h r c) (private_rows m) m).
Proof.
  unfold fill, Store.fill, Store.sbind, Store.ret, Store.rows, rows,
    private_rows.
  rewrite length_seq.
  pose proof (fill_rows_private func (length m) (py_range (length m)) m
                eq_refl) as H.
  destruct (fill_rows func (py_range (length m)) m) as [m'|e]; simpl in *.
  - by rewrite H.
  - match goal with |- context [Store.fill_rows ?f ?a ?b ?c] =>
      destruct (Store.fill_rows f a b c) as [[[]|e'] h1] end;
      simpl in *; [discriminate | congruence].
Qed.

(** * More of the class *)

(** ** What [fill] needs and what it raises *)

Lemma setitem_shape m i j v m' :
  setitem m i j v = Ok m' -> columns m' = columns m /\ length m' = length m.
Proof.
  intros H. split; [|by eapply setitem_length].
  unfold setitem in H. apply bind_Ok in H as (row & Hrow & H).
  apply py_index_pos in Hrow as (ki & Hki & Hrow). rewrite Hki in H.
  destruct (py_pos (length row) j) as [kj|]; [|discriminate].
  injection H as <-. unfold columns. rewrite !py_index_0.
  destruct (decide (ki = 0)) as [->|Hne].
  - rewrite list_lookup_insert_eq by (by eapply lookup_lt_Some).
    rewrite Hrow. simpl. by rewrite length_insert.
  - by rewrite list_lookup_insert_ne.
Qed.

Section FillConst.
Variable f : Z -> Z -> result Q.

Lemma fill_row_Ok_inv r cs : forall cur cur',
  fill_row (fun _ => f) r cs cur = Ok cur' ->
  columns cur' = columns cur /\ length cur' = length cur
  /\ forall c, In c cs -> exists v, f r c = Ok v.
Proof.
  induction cs as [|c cs IH]; intros cur cur'; simpl.
  - intros [= <-]. by repeat split.
  - intros H. apply bind_Ok in H as (v & Hv & H).
    apply bind_Ok in H as (cur1 & Hset & H).
    apply setitem_shape in Hset as [Hc1 Hl1].
    apply IH in H as (Hc & Hl & Hcs).
    split; [congruence|]. split; [congruence|].
    intros c' [<-|Hin]; eauto.
Qed.

Lemma fill_rows_Ok_inv rs : forall cur cur' n,
  fill_rows (fun _ => f) rs cur = Ok cur' -> columns cur = Ok n ->
  length cur' = length cur /\
  forall r c, In r rs -> In c (py_range n) -> exists v, f r c = Ok v.
Proof.
  induction rs as [|r rs IH]; intros cur cur' n; simpl.
  - intros [= <-] _. by split.
  - intros H Hn. rewrite Hn in H. simpl in H.
    apply bind_Ok in H as (cur1 & Hrow & H).
    apply fill_row_Ok_inv in Hrow as (Hc1 & Hl1 & Hrow).
    apply (IH cur1 cur' n) in H as [Hl Hrs]; [|congruence].
    split; [congruence|]. intros r' c [<-|Hin] Hc; eauto.
Qed.

(** If [fill] returns, its function returned at every position. *)
Lemma fill_Ok_inv m m' n :
  fill (fun _ => f) m = Ok m' -> columns m = Ok n ->
  forall r c, In r (py_range (rows m)) -> In c (py_range n) ->
    exists v, f r c = Ok v.
Proof.
  unfold fill. intros H Hn. by apply (fill_rows_Ok_inv _ _ _ n) in H as [_ H].
Qed.

(** [fill] raises [IndexError] or what its function raises. *)
Hypothesis f_Raise : forall r c e, f r c = Raise e -> e = IndexError.

Lemma fill_row_const_Raise r cs : forall cur e,
  fill_row (fun _ => f) r cs cur = Raise e -> e = IndexError.
Proof.
  induction cs as [|c cs IH]; intros cur e; simpl; [discriminate|].
  intros [H|(v & _ & H)]%bind_Raise; [by eapply f_Raise|].
  apply bind_Raise in H as [H|(cur1 & _ & H)]; [by eapply setitem_Raise|].
  by eapply IH.
Qed.

Lemma fill_const_Raise m e :
  fill (fun _ => f) m = Raise e -> e = IndexError.
Proof.
  unfold fill. generalize (py_range (rows m)). intros rs. revert m.
  induction rs as [|r rs IH]; intros m; simpl; [discriminate|].
  intros [H|(n & _ & H)]%bind_Raise; [by eapply columns_Raise|].
  apply bind_Raise in H as [H|(cur1 & _ & H)];
    [by eapply fill_row_const_Raise|].
  by eapply IH.
Qed.
End FillConst.

(** ** The constructor on ragged input *)

(** X1.  The constructor takes the number of columns from the first inner
    sequence.  If that sequence is not empty and no inner sequence is
    shorter, the matrix holds every inner sequence cut to that length (so a
    rectangular input is stored as it is); if some inner sequence is
    shorter, the constructor raises [IndexError]. *)
Theorem init_first_row_decides_width (rws : list (list Q)) (r0 : list Q) :
  rws !! 0 = Some r0 -> 0 < length r0 ->
  (Forall (fun row => length r0 <= length row) rws ->
     init rws = Ok (map (take (length r0)) rws))
  /\ (~ Forall (fun row => length r0 <= length row) rws ->
        init rws = Raise IndexError).
Proof.
  intros H0 Hpos.
  assert (Hlen : 0 < length rws) by (by eapply lookup_lt_Some).
  assert (Hinit : init rws
    = fill (fun _ r c => row <- py_index rws r ;; py_index row c)
           (zero (length rws) (length r0))).
  { unfold init. destruct (Nat.eqb_spec (length rws) 0) as [|_]; [lia|].
    rewrite py_index_0, H0. simpl.
    by destruct (Nat.eqb_spec (length r0) 0) as [|_]; [lia|]. }
  rewrite Hinit. split.
  - intros Hall. rewrite Forall_forall in Hall.
    set (R := length rws). set (C := length r0).
    destruct (fill_zero_spec R C
                (fun r c => row <- py_index rws r ;; py_index row c)
                (fun i j => elt rws (Z.of_nat i) (Z.of_nat j)))
      as (m' & -> & Hm' & Hcell).
    + intros i j Hi Hj.
      destruct (lookup_lt_is_Some_2 rws i Hi) as [row Hrow].
      rewrite py_index_of_nat, Hrow. simpl. rewrite py_index_of_nat.
      unfold elt, cell. rewrite !Nat2Z.id, Hrow.
      assert (C <= length row) by (apply Hall; by eapply list_elem_of_lookup_2).
      by destruct (lookup_lt_is_Some_2 row j ltac:(lia)) as [x ->].
    + f_equal. apply (rect_ext R C); [done| |].
      * split; [by rewrite length_map|]. apply Forall_forall.
        intros row (row' & -> & Hin)%list_elem_of_fmap.
        rewrite length_take. specialize (Hall row' Hin). lia.
      * intros i j Hi Hj. rewrite Hcell by done.
        destruct (lookup_lt_is_Some_2 rws i Hi) as [row Hrow].
        assert (C <= length row) by (apply Hall; by eapply list_elem_of_lookup_2).
        destruct (lookup_lt_is_Some_2 row j ltac:(lia)) as [x Hx].
        unfold elt, cell. rewrite !Nat2Z.id, Hrow, Hx.
        rewrite list_lookup_fmap, Hrow. simpl.
        by rewrite lookup_take_lt.
  - intros Hnot. apply not_Forall_Exists in Hnot; [|apply _].
    apply Exists_exists in Hnot as (row & Hin & Hshort). simpl in Hshort.
    apply list_elem_of_lookup in Hin as [i Hi].
    match goal with |- ?x = _ => destruct x as [m'|e] eqn:Hfill end.
    + exfalso.
      destruct (fill_Ok_inv _ _ _ (length r0) Hfill) with
        (r := Z.of_nat i) (c := Z.of_nat (length row)) as [v Hv].
      * by apply (columns_rect (length rws) (length r0)); [apply rect_zero|].
      * apply In_py_range. exists i. split; [done|].
        unfold rows, zero, raw. rewrite length_replicate.
        by eapply lookup_lt_Some.
      * apply In_py_range. exists (length row). split; [done | lia].
      * rewrite py_index_of_nat, Hi in Hv. simpl in Hv.
        rewrite py_index_of_nat in Hv.
        by rewrite lookup_ge_None_2 in Hv by lia.
    + f_equal. apply fill_const_Raise in Hfill; [done|].
      intros r c e' [H|(rw & _ & H)]%bind_Raise; by eapply py_index_Raise.
Qed.

Lemma init_first_row_decides_width_witness :
  init [[1; 2]; [3; 4; 5]]%Q = Ok [[1; 2]; [3; 4]]%Q
  /\ init [[1; 2]; [3]]%Q = Raise IndexError.
Proof.
  split.
  - apply (proj1 (init_first_row_decides_width
                    [[1; 2]; [3; 4; 5]]%Q [1; 2]%Q eq_refl ltac:(simpl; lia))).
    repeat constructor.
  - apply (proj2 (init_first_row_decides_width
                    [[1; 2]; [3]]%Q [1; 2]%Q eq_refl ltac:(simpl; lia))).
    intros H. inversion H as [|? ? _ H1]; subst.
    inversion H1 as [|? ? H2 _]; subst. simpl in H2. lia.
Defined.

(** ** Transpose, scalar multiple, adjugate *)

Lemma cell_elt R C m i j :
  rect R C m -> i < R -> j < C ->
  cell m i j = Some (elt m (Z.of_nat i) (Z.of_nat j)).
Proof.
  intros Hm Hi Hj. unfold elt. rewrite !Nat2Z.id.
  by destruct (rect_cell R C m i j Hm Hi Hj) as [x ->].
Qed.

Lemma transpose_rect R C m :
  rect R C m -> 0 < R ->
  exists t, transpose m = Ok t /\ rect C R t /\
    forall i j, i < C -> j < R -> cell t i j = cell m j i.
Proof.
  intros Hm HR. unfold transpose, rows.
  rewrite (columns_rect R C) by done. simpl.
  destruct Hm as [Hlen Hall]. rewrite Hlen.
  destruct (fill_zero_spec C R (fun r c => getitem m c r)
              (fun i j => elt m (Z.of_nat j) (Z.of_nat i)))
    as (t & -> & Ht & Hcell).
  - intros i j Hi Hj. apply (getitem_elt R C); [done | |];
      apply In_py_range; eauto.
  - exists t. split; [done|]. split; [done|]. intros i j Hi Hj.
    rewrite Hcell by done. symmetry. by apply (cell_elt R C).
Qed.

(** X2.  [transpose()] of a matrix with [R >= 1] rows and [C] columns is
    the [C] x [R] matrix with the element [(j, i)] at [(i, j)]; when
    [C >= 1], transposing it again gives the matrix back; when [C = 0] the
    transpose is the empty matrix, whose own transpose raises
    [IndexError]. *)
Theorem transpose_spec R C (m : matrix) :
  rect R C m -> 0 < R ->
  exists t,
    transpose m = Ok t /\ rect C R t
    /\ (forall i j, i < C -> j < R -> cell t i j = cell m j i)
    /\ (0 < C -> transpose t = Ok m)
    /\ (C = 0 -> t = [] /\ transpose t = Raise IndexError).
Proof.
  intros Hm HR.
  destruct (transpose_rect R C m Hm HR) as (t & Ht & Hrect & Hcell).
  exists t. split; [done|]. split; [done|]. split; [done|]. split.
  - intros HC.
    destruct (transpose_rect C R t Hrect HC) as (t2 & -> & Hrect2 & Hcell2).
    f_equal. apply (rect_ext R C); [done | done |].
    intros i j Hi Hj. rewrite Hcell2, Hcell by done. reflexivity.
  - intros ->. destruct Hrect as [Hlen _].
    destruct t; [|discriminate]. by split.
Qed.

Lemma transpose_spec_witness :
  rect 2 2 M1 /\ 0 < 2 /\
  exists t, transpose M1 = Ok t /\ rect 2 2 t
    /\ (forall i j, i < 2 -> j < 2 -> cell t i j = cell M1 j i)
    /\ (0 < 2 -> transpose t = Ok M1)
    /\ (2 = 0 -> t = [] /\ transpose t = Raise IndexError).
Proof.
  assert (H : rect 2 2 M1) by (split; [reflexivity | repeat constructor]).
  split; [exact H|]. split; [lia|].
  exact (transpose_spec 2 2 M1 H ltac:(lia)).
Defined.

(** X3.  [M * k] on a matrix with at least one row is a matrix of the same
    shape whose elements are those of [M] times [k]. *)
Theorem mul_spec R C (m : matrix) (k : Q) :
  rect R C m -> 0 < R ->
  exists p,
    mul m k = Ok p /\ rect R C p /\
    forall i j, i < R -> j < C ->
      exists x, cell m i j = Some x /\ cell p i j = Some (x * k)%Q.
Proof.
  intros Hm HR. unfold mul. rewrite (copy_rect R C) by done. simpl.
  unfold imul.
  destruct (fill_spec R C
              (fun self r c => x <- getitem self r c ;; Ok (x * k)%Q)
              (fun i j => elt m (Z.of_nat i) (Z.of_nat j) * k)%Q m)
    as (p & -> & Hp & Hcell).
  - intros cur i j Hi Hj _ Hcur.
    rewrite getitem_of_nat, Hcur, (cell_elt R C) by done. reflexivity.
  - done.
  - exists p. split; [done|]. split; [done|]. intros i j Hi Hj.
    exists (elt m (Z.of_nat i) (Z.of_nat j)).
    split; [by apply (cell_elt R C) | by apply Hcell].
Qed.

Lemma mul_spec_witness :
  rect 2 2 M1 /\ 0 < 2 /\
  exists p, mul M1 2 = Ok p /\ rect 2 2 p /\
    forall i j, i < 2 -> j < 2 ->
      exists x, cell M1 i j = Some x /\ cell p i j = Some (x * 2)%Q.
Proof.
  assert (H : rect 2 2 M1) by (split; [reflexivity | repeat constructor]).
  split; [exact H|]. split; [lia|].
  exact (mul_spec 2 2 M1 2 H ltac:(lia)).
Defined.

(** X4.  [adjugate()] of a matrix with [R >= 1] rows and [C] columns is
    the [C] x [R] matrix whose element [(i, j)] is the element [(j, i)] of
    the matrix times [(-1)**((j+i)%2)]: the transpose of the matrix with
    alternating signs. *)
Theorem adjugate_spec R C (m : matrix) :
  rect R C m -> 0 < R ->
  exists a,
    adjugate m = Ok a /\ rect C R a /\
    forall i j, i < C -> j < R ->
      exists x, cell m j i = Some x /\
        cell a i j
        = Some (x * neg_one_pow ((Z.of_nat j + Z.of_nat i) mod 2))%Q.
Proof.
  intros Hm HR. unfold adjugate, cofactor.
  rewrite (size_rect R C) by done. simpl.
  destruct (fill_zero_spec R C
              (fun r c => x <- getitem m r c ;;
                          Ok (x * neg_one_pow ((r + c) mod 2))%Q)
              (fun i j => elt m (Z.of_nat i) (Z.of_nat j)
                 * neg_one_pow ((Z.of_nat i + Z.of_nat j) mod 2))%Q)
    as (cf & -> & Hcf & Hccf).
  { intros i j Hi Hj.
    rewrite getitem_of_nat, (cell_elt R C) by done. reflexivity. }
  simpl.
  destruct (transpose_rect R C cf Hcf HR) as (a & -> & Ha & Hca).
  exists a. split; [done|]. split; [done|]. intros i j Hi Hj.
  exists (elt m (Z.of_nat j) (Z.of_nat i)).
  split; [by apply (cell_elt R C)|].
  rewrite Hca, Hccf by done. reflexivity.
Qed.

Lemma adjugate_spec_witness :
  rect 3 3 M2 /\ 0 < 3 /\
  exists a, adjugate M2 = Ok a /\ rect 3 3 a /\
    forall i j, i < 3 -> j < 3 ->
      exists x, cell M2 j i = Some x /\
        cell a i j
        = Some (x * neg_one_pow ((Z.of_nat j + Z.of_nat i) mod 2))%Q.
Proof.
  assert (H : rect 3 3 M2) by (split; [reflexivity | repeat constructor]).
  split; [exact H|]. split; [lia|].
  exact (adjugate_spec 3 3 M2 H ltac:(lia)).
Defined.

(** ** The identity matrix and the matrix product *)

(** The Kronecker delta. *)
Definition delta (i j : nat) : Q := if decide (i = j) then 1%Q else 0%Q.

Lemma cell_zero R C i j : i < R -> j < C -> cell (zero R C) i j = Some 0%Q.
Proof.
  intros Hi Hj. unfold cell, zero, raw.
  rewrite lookup_replicate_2 by done. by apply lookup_replicate_2.
Qed.

Lemma identity_loop_inv n : forall cnt k cur,
  k + cnt = n -> rect n n cur ->
  (forall i j, i < n -> j < n ->
     cell cur i j = Some (if decide (i = j /\ i < k) then 1%Q else 0%Q)) ->
  exists m', identity_loop (map Z.of_nat (seq k cnt)) cur = Ok m'
    /\ rect n n m'
    /\ forall i j, i < n -> j < n -> cell m' i j = Some (delta i j).
Proof.
  induction cnt as [|cnt IH]; intros k cur Hk Hrect Hcell; simpl.
  - exists cur. split; [done|]. split; [done|]. intros i j Hi Hj.
    rewrite Hcell by done. unfold delta. repeat case_decide; done || lia.
  - destruct (setitem_rect n n cur k k 1%Q Hrect) as (cur1 & -> & Hr1 & Hc1);
      [lia | lia|]. simpl.
    apply IH; [lia | done |]. intros i j Hi Hj.
    rewrite Hc1, Hcell by done. repeat case_decide; done || lia.
Qed.

Lemma identity_rect n :
  exists m, identity n = Ok m /\ rect n n m
    /\ forall i j, i < n -> j < n -> cell m i j = Some (delta i j).
Proof.
  unfold identity, py_range.
  apply identity_loop_inv; [lia | apply rect_zero |].
  intros i j Hi Hj. rewrite cell_zero by done.
  by rewrite decide_False by lia.
Qed.

(** The dot product of row [i] of [a] and column [j] of [b], as [sum]
    computes it. *)
Definition dot (a b : matrix) (K i j : nat) : Q :=
  py_sum (map (fun k => elt a (Z.of_nat i) k * elt b k (Z.of_nat j))%Q
              (py_range K)).

Lemma matmul_rect R K C a b :
  rect R K a -> rect K C b -> 0 < R -> 0 < K ->
  exists p, matmul a b = Ok p /\ rect R C p
    /\ forall i j, i < R -> j < C -> cell p i j = Some (dot a b K i j).
Proof.
  intros Ha Hb HR HK. unfold matmul, rows.
  rewrite (columns_rect R K a) by done. simpl.
  pose proof Ha as [Hla _]. pose proof Hb as [Hlb _]. rewrite Hla, Hlb.
  rewrite Nat.eqb_refl. simpl.
  rewrite (columns_rect K C b) by done. simpl.
  apply fill_zero_spec. intros i j Hi Hj.
  rewrite (mapM_map _ (fun k => elt a (Z.of_nat i) k * elt b k (Z.of_nat j))%Q).
  - reflexivity.
  - intros k Hk.
    rewrite (getitem_elt R K a), (getitem_elt K C b);
      try done; apply In_py_range; eauto.
Qed.

(** X5.  [A @ B] raises [ValueError] when the number of columns of [A] is
    not the number of rows of [B]; otherwise it is the matrix with the rows
    of [A] and the columns of [B] whose element [(i, j)] is the sum, from 0
    and in order, of the products of row [i] of [A] and column [j] of
    [B]. *)
Theorem matmul_spec R K K' C (a b : matrix) :
  rect R K a -> rect K' C b -> 0 < R -> 0 < K' ->
  (K <> K' -> matmul a b = Raise ValueError)
  /\ (K = K' ->
      exists p, matmul a b = Ok p /\ rect R C p
        /\ forall i j, i < R -> j < C -> cell p i j = Some (dot a b K i j)).
Proof.
  intros Ha Hb HR HK. split.
  - intros Hne. unfold matmul, rows.
    rewrite (columns_rect R K a) by done. simpl.
    destruct Hb as [-> _]. by destruct (Nat.eqb_spec K K').
  - intros ->. by apply matmul_rect.
Qed.

Lemma matmul_spec_witness :
  matmul M2 M1 = Raise ValueError
  /\ exists p, matmul M2 M3 = Ok p /\ rect 3 5 p
       /\ forall i j, i < 3 -> j < 5 -> cell p i j = Some (dot M2 M3 3 i j).
Proof.
  assert (H1 : rect 2 2 M1) by (split; [reflexivity | repeat constructor]).
  assert (H2 : rect 3 3 M2) by (split; [reflexivity | repeat constructor]).
  assert (H3 : rect 3 5 M3) by (split; [reflexivity | repeat constructor]).
  split.
  - apply (proj1 (matmul_spec 3 3 2 2 M2 M1 H2 H1 ltac:(lia) ltac:(lia))). lia.
  - by apply (proj2 (matmul_spec 3 3 3 5 M2 M3 H2 H3 ltac:(lia) ltac:(lia))).
Defined.

(** A sum with a single term that is not 0. *)
Lemma sum_single (F : nat -> Q) (j : nat) (v : Q) :
  (forall k, k <> j -> (F k == 0)%Q) -> (F j == v)%Q ->
  forall n s,
    Qeq (fold_right Qplus 0%Q (map F (seq s n)))
        (if decide (s <= j < s + n) then v else 0%Q).
Proof.
  intros Hz Hj. induction n as [|n IH]; intros s; simpl.
  - by rewrite decide_False by lia.
  - rewrite IH. destruct (decide (s = j)) as [->|Hne].
    + rewrite Hj, decide_False, decide_True by lia. ring.
    + rewrite (Hz s Hne). repeat case_decide; try lia; ring.
Qed.

Lemma py_sum_single (F : nat -> Q) (j n : nat) (v : Q) :
  (forall k, k <> j -> (F k == 0)%Q) -> (F j == v)%Q -> j < n ->
  (py_sum (map (fun k => F (Z.to_nat k)) (py_range n)) == v)%Q.
Proof.
  intros Hz Hj Hn. unfold py_sum, py_range. rewrite fold_left_Qplus.
  rewrite map_map.
  rewrite (map_ext _ F) by (intros k; by rewrite Nat2Z.id).
  rewrite (sum_single F j v Hz Hj). rewrite decide_True by lia. ring.
Qed.

Lemma elt_identity n idn i j :
  rect n n idn ->
  (forall i j, i < n -> j < n -> cell idn i j = Some (delta i j)) ->
  i < n -> j < n -> elt idn (Z.of_nat i) (Z.of_nat j) = delta i j.
Proof.
  intros Hr Hc Hi Hj. unfold elt. by rewrite !Nat2Z.id, Hc.
Qed.

(** X6.  For a matrix [M] with [R >= 1] rows and [C >= 1] columns,
    [M @ identity(C)] and [identity(R) @ M] are matrices of the shape of
    [M] whose elements equal those of [M] as numbers. *)
Theorem matmul_identity R C (m : matrix) :
  rect R C m -> 0 < R -> 0 < C ->
  exists idc idr p q,
    identity C = Ok idc /\ identity R = Ok idr
    /\ matmul m idc = Ok p /\ matmul idr m = Ok q
    /\ rect R C p /\ rect R C q
    /\ forall i j, i < R -> j < C ->
         exists x y z,
           cell m i j = Some x /\ cell p i j = Some y /\ cell q i j = Some z
           /\ (y == x)%Q /\ (z == x)%Q.
Proof.
  intros Hm HR HC.
  destruct (identity_rect C) as (idc & Hidc & Hrc & Hcc).
  destruct (identity_rect R) as (idr & Hidr & Hrr & Hcr).
  destruct (matmul_rect R C C m idc Hm Hrc HR HC) as (p & Hp & Hrp & Hcp).
  destruct (matmul_rect R R C idr m Hrr Hm HR HR) as (q & Hq & Hrq & Hcq).
  exists idc, idr, p, q. repeat (split; [done|]).
  intros i j Hi Hj.
  exists (elt m (Z.of_nat i) (Z.of_nat j)), (dot m idc C i j),
    (dot idr m R i j).
  split; [by apply (cell_elt R C)|]. split; [by apply Hcp|].
  split; [by apply Hcq|]. split.
  - unfold dot.
    rewrite (map_ext_in _
      (fun k => (fun k' => elt m (Z.of_nat i) (Z.of_nat k') * delta k' j)%Q
                  (Z.to_nat k))).
    + apply (py_sum_single
               (fun k' => elt m (Z.of_nat i) (Z.of_nat k') * delta k' j)%Q
               j C); [| |done].
      * intros k Hk. unfold delta. rewrite decide_False by done. ring.
      * unfold delta. rewrite decide_True by done. ring.
    + intros k (k' & -> & Hk')%In_py_range. rewrite Nat2Z.id.
      by rewrite (elt_identity C idc k' j).
  - unfold dot.
    rewrite (map_ext_in _
      (fun k => (fun k' => delta i k' * elt m (Z.of_nat k') (Z.of_nat j))%Q
                  (Z.to_nat k))).
    + apply (py_sum_single
               (fun k' => delta i k' * elt m (Z.of_nat k') (Z.of_nat j))%Q
               i R); [| |done].
      * intros k Hk. unfold delta. rewrite decide_False by congruence. ring.
      * unfold delta. rewrite decide_True by done. ring.
    + intros k (k' & -> & Hk')%In_py_range. rewrite Nat2Z.id.
      by rewrite (elt_identity R idr i k').
Qed.

Lemma matmul_identity_witness :
  rect 3 5 M3 /\ 0 < 3 /\ 0 < 5 /\
  exists idc idr p q,
    identity 5 = Ok idc /\ identity 3 = Ok idr
    /\ matmul M3 idc = Ok p /\ matmul idr M3 = Ok q
    /\ rect 3 5 p /\ rect 3 5 q
    /\ forall i j, i < 3 -> j < 5 ->
         exists x y z,
           cell M3 i j = Some x /\ cell p i j = Some y /\ cell q i j = Some z
           /\ (y == x)%Q /\ (z == x)%Q.
Proof.
  assert (H3 : rect 3 5 M3) by (split; [reflexivity | repeat constructor]).
  split; [exact H3|]. split; [lia|]. split; [lia|].
  exact (matmul_identity 3 5 M3 H3 ltac:(lia) ltac:(lia)).
Defined.

(** ** [is_identity] *)

Lemma py_all_forallb {A} (f : A -> result bool) (g : A -> bool) xs :
  (forall x, In x xs -> f x = Ok (g x)) -> py_all f xs = Ok (forallb g xs).
Proof.
  induction xs as [|x xs IH]; simpl; intros H; [reflexivity|].
  rewrite (H x) by auto. simpl. destruct (g x); [|reflexivity].
  apply IH. auto.
Qed.

Lemma In_all_positions R C p :
  In p (flat_map (fun c => map (fun r => (r, c)) (py_range R)) (py_range C))
  <-> exists i j, p = (Z.of_nat i, Z.of_nat j) /\ i < R /\ j < C.
Proof.
  rewrite in_flat_map. split.
  - intros (c & (j & -> & Hj)%In_py_range & Hin).
    apply in_map_iff in Hin as (r & <- & (i & -> & Hi)%In_py_range). eauto.
  - intros (i & j & -> & Hi & Hj). exists (Z.of_nat j). split.
    + apply In_py_range. eauto.
    + apply in_map_iff. exists (Z.of_nat i). split; [done|].
      apply In_py_range. eauto.
Qed.

(** The comparison [is_identity] makes at position [(i, j)]. *)
Definition close_to_delta (m : matrix) (p : Z * Z) : bool :=
  isclose (elt m (fst p) (snd p)) (if (fst p =? snd p)%Z then 1 else 0)%Q.

Lemma is_identity_rect R C m :
  rect R C m -> 0 < R ->
  is_identity m
  = Ok (forallb (close_to_delta m)
          (flat_map (fun c => map (fun r => (r, c)) (py_range R))
                    (py_range C))).
Proof.
  intros Hm HR. unfold is_identity, all_positions, rows.
  rewrite (columns_rect R C) by done. simpl.
  destruct Hm as [Hlen Hall]. rewrite Hlen.
  apply py_all_forallb.
  intros p (i & j & -> & Hi & Hj)%In_all_positions. simpl.
  rewrite (getitem_elt R C m); [reflexivity | done | |];
    apply In_py_range; eauto.
Qed.




(** X8.  [Matrix.identity(n)] is the [n] x [n] matrix with 1 on the
    diagonal and 0 elsewhere.  For [n >= 1], [is_identity] is true on it;
    [identity(0)] is the empty matrix, on which [is_identity] raises
    [IndexError]. *)
Theorem identity_spec (n : nat) :
  exists m,
    identity n = Ok m /\ rect n n m
    /\ (forall i j, i < n -> j < n -> cell m i j = Some (delta i j))
    /\ is_identity m = (if n =? 0 then Raise IndexError else Ok true).
Proof.
  destruct (identity_rect n) as (m & Hid & Hrect & Hcell).
  exists m. split; [done|]. split; [done|]. split; [done|].
  destruct (Nat.eqb_spec n 0) as [->|Hn].
  - destruct Hrect as [Hlen _]. by destruct m.
  - rewrite (is_identity_rect n n) by (done || lia). f_equal.
    apply forallb_forall. intros p (i & j & -> & Hi & Hj)%In_all_positions.
    unfold close_to_delta, isclose. simpl.
    rewrite (elt_identity n m i j) by done. unfold delta.
    destruct (Z.eqb_spec (Z.of_nat i) (Z.of_nat j)); case_decide;
      (reflexivity || lia).
Qed.

(** ** Exponentiation *)

Lemma bind_assoc {A B C} (x : result A) (f : A -> result B)
    (g : B -> result C) :
  bind (bind x f) g = bind x (fun a => bind (f a) g).
Proof. by destruct x. Qed.

(** One turn of the loop of [__pow__]: [new @= self]. *)
Definition matmul_self (self : matrix) (new : option matrix)
    : result (option matrix) :=
  match new with
  | None => Raise TypeError
  | Some a => b <- matmul a self ;; Ok (Some b)
  end.

Lemma pow_loop_S n self : forall new,
  pow_loop (S n) self new = bind (pow_loop n self new) (matmul_self self).
Proof.
  induction n as [|n IH]; intros new.
  - destruct new as [a|]; reflexivity.
  - destruct new as [a|]; [|reflexivity].
    change (pow_loop (S (S n)) self (Some a))
      with (bind (matmul a self)
                 (fun new' => pow_loop (S n) self (Some new'))).
    change (pow_loop (S n) self (Some a))
      with (bind (matmul a self)
                 (fun new' => pow_loop n self (Some new'))).
    rewrite bind_assoc. destruct (matmul a self) as [b|]; [|reflexivity].
    exact (IH (Some b)).
Qed.

(** X9.  On a square matrix with at least one row, one more unit of the
    exponent, positive or negative, is one more product by the matrix
    itself on the right: [M ** (p+1)] is [(M ** p) @ M] and
    [M ** -(p+1)] is [(M ** -p) @ M], for [p >= 1] (a [None] result of
    [M ** -p] makes the product raise [TypeError]). *)
Theorem pow_one_more (n : nat) (m : matrix) (p : Z) :
  rect n n m -> 0 < n -> (1 <= p)%Z ->
  pow m (p + 1) = bind (pow m p) (matmul_self m)
  /\ pow m (- (p + 1)) = bind (pow m (- p)) (matmul_self m).
Proof.
  intros Hm Hn Hp. unfold pow.
  rewrite (is_square_rect n n), Nat.eqb_refl by done. simpl.
  rewrite (copy_rect n n) by done. simpl.
  destruct (Z.eqb_spec (p + 1) 0); [lia|].
  destruct (Z.eqb_spec p 0); [lia|].
  destruct (Z.eqb_spec (- (p + 1)) 0); [lia|].
  destruct (Z.eqb_spec (- p) 0); [lia|].
  destruct (Z.ltb_spec (p + 1) 0); [lia|].
  destruct (Z.ltb_spec p 0); [lia|].
  destruct (Z.ltb_spec (- (p + 1)) 0); [|lia].
  destruct (Z.ltb_spec (- p) 0); [|lia].
  replace (Z.to_nat (p + 1 - 1)) with (S (Z.to_nat (p - 1))) by lia.
  replace (Z.to_nat (- - (p + 1) - 1)) with (S (Z.to_nat (- - p - 1)))
    by lia.
  split; [apply pow_loop_S|].
  destruct (inverse m) as [inv|]; simpl; [apply pow_loop_S | reflexivity].
Qed.

Lemma pow_one_more_witness :
  rect 2 2 M1 /\ 0 < 2 /\ (1 <= 2)%Z
  /\ pow M1 (2 + 1) = bind (pow M1 2) (matmul_self M1)
  /\ pow M1 (- (2 + 1)) = bind (pow M1 (- 2)) (matmul_self M1).
Proof.
  assert (H : rect 2 2 M1) by (split; [reflexivity | repeat constructor]).
  split; [exact H|]. split; [lia|]. split; [lia|].
  exact (pow_one_more 2 M1 2 H ltac:(lia) ltac:(lia)).
Defined.

(** X10.  The small exponents, on a matrix with [R >= 1] rows and [C]
    columns: [M ** 1] is a copy of [M] and [M ** -1] is [M.inverse()],
    square or not; [M ** 0] is [identity(R)] when [R = C]; when [R <> C],
    [M ** -1] is [None] and every exponent other than 1 and -1, 0 among
    them, raises [ValueError]. *)
Theorem pow_small_exponents R C (m : matrix) :
  rect R C m -> 0 < R ->
  pow m 1 = Ok (Some m)
  /\ pow m (-1) = inverse m
  /\ (R = C -> pow m 0 = bind (identity R) (fun i => Ok (Some i)))
  /\ (R <> C -> pow m (-1) = Ok None)
  /\ (R <> C -> forall p, p <> 1%Z -> p <> (-1)%Z ->
        pow m p = Raise ValueError).
Proof.
  intros Hm HR.
  assert (Hsq : is_square m = Ok (R =? C)) by (by apply is_square_rect).
  assert (Hcopy : copy m = Ok m) by (by apply (copy_rect R C)).
  assert (Hrows : rows m = R) by (by destruct Hm).
  assert (Hinv : pow m (-1) = inverse m).
  { unfold pow. rewrite Hsq. simpl. rewrite andb_false_r. simpl.
    rewrite Hcopy. simpl. by destruct (inverse m). }
  split; [|split; [done|split; [|split]]].
  - unfold pow. rewrite Hsq. simpl. rewrite andb_false_r. simpl.
    by rewrite Hcopy.
  - intros <-. unfold pow. rewrite Hsq, Nat.eqb_refl. simpl.
    by rewrite Hrows.
  - intros Hne. rewrite Hinv.
    apply (inverse_not_square m C); [by apply (columns_rect R C)|].
    by rewrite Hrows.
  - intros Hne p Hp1 Hp2. unfold pow. rewrite Hsq. simpl.
    destruct (Nat.eqb_spec R C); [done|]. simpl.
    destruct (Z.eqb_spec p 1); [done|].
    by destruct (Z.eqb_spec p (-1)).
Qed.

Lemma pow_small_exponents_witness :
  rect 3 5 M3 /\ 0 < 3
  /\ pow M3 1 = Ok (Some M3)
  /\ pow M3 (-1) = inverse M3
  /\ (3 = 5 -> pow M3 0 = bind (identity 3) (fun i => Ok (Some i)))
  /\ (3 <> 5 -> pow M3 (-1) = Ok None)
  /\ (3 <> 5 -> forall p, p <> 1%Z -> p <> (-1)%Z ->
        pow M3 p = Raise ValueError).
Proof.
  assert (H3 : rect 3 5 M3) by (split; [reflexivity | repeat constructor]).
  split; [exact H3|]. split; [lia|].
  exact (pow_small_exponents 3 5 M3 H3 ltac:(lia)).
Defined.

(** ** Rows, columns, diagonal, iteration *)

(** [row(i)]. *)
Definition row (m : matrix) (i : Z) : result (list Q) :=
  n <- columns m ;; mapM (fun c => getitem m i c) (py_range n).

(** [column(j)]. *)
Definition column (m : matrix) (j : Z) : result (list Q) :=
  mapM (fun r => getitem m r j) (py_range (rows m)).

(** [diagonal()]. *)
Definition diagonal (m : matrix) : result (list Q) :=
  n <- columns m ;;
  mapM (fun i => getitem m i i) (py_range (Nat.min (rows m) n)).

(** [__len__]. *)
Definition len (m : matrix) : nat := rows m.

(** [__iter__], consumed to its end: the rows as [row] returns them. *)
Definition iter (m : matrix) : result (list (list Q)) :=
  mapM (fun r => row m r) (py_range (rows m)).

Lemma map_py_range_lookup {A} (l : list A) (d : A) :
  map (fun k => default d (l !! Z.to_nat k)) (py_range (length l)) = l.
Proof.
  unfold py_range. rewrite map_map. apply list_eq. intros i.
  rewrite list_lookup_fmap.
  destruct (l !! i) as [x|] eqn:Hi.
  - rewrite lookup_seq_lt by (by eapply lookup_lt_Some). simpl.
    by rewrite Nat2Z.id, Hi.
  - by rewrite lookup_seq_ge by (by apply lookup_ge_None).
Qed.

Lemma row_rect R C m i rw :
  rect R C m -> m !! i = Some rw -> row m (Z.of_nat i) = Ok rw.
Proof.
  intros Hm Hi. pose proof (rect_lookup _ _ _ _ _ Hm Hi) as Hlen.
  assert (HR : 0 < R) by (destruct Hm; apply lookup_lt_Some in Hi; lia).
  unfold row. rewrite (columns_rect R C) by done. simpl.
  rewrite (mapM_map _ (fun k => default 0%Q (rw !! Z.to_nat k))).
  - by rewrite <- Hlen, map_py_range_lookup.
  - intros c (j & -> & Hj)%In_py_range. rewrite getitem_of_nat.
    unfold cell. rewrite Hi, Nat2Z.id.
    by destruct (lookup_lt_is_Some_2 rw j ltac:(lia)) as [x ->].
Qed.

Lemma iter_rect R C m : rect R C m -> iter m = Ok m.
Proof.
  intros Hm. unfold iter, rows.
  rewrite (mapM_map _ (fun k => default [] (m !! Z.to_nat k))).
  - by rewrite map_py_range_lookup.
  - intros r (i & -> & Hi)%In_py_range. rewrite Nat2Z.id.
    destruct (lookup_lt_is_Some_2 m i Hi) as [rw Hrw]. rewrite Hrw. simpl.
    by apply (row_rect R C).
Qed.

(** X11.  Iterating over a rectangular matrix yields its rows, [row(i)]
    being row [i]; building a matrix from them gives the matrix back when
    it has at least one column, and the empty matrix when it has none.
    On the empty matrix, iterating yields nothing, while [row(i)] raises
    [IndexError]. *)
Theorem iter_init_round_trip R C (m : matrix) :
  rect R C m -> 0 < R ->
  iter m = Ok m
  /\ (forall i rw, m !! i = Some rw -> row m (Z.of_nat i) = Ok rw)
  /\ (0 < C -> bind (iter m) init = Ok m)
  /\ (C = 0 -> bind (iter m) init = Ok [])
  /\ iter [] = Ok [] /\ (forall i, row [] i = Raise IndexError).
Proof.
  intros Hm HR. rewrite (iter_rect R C) by done.
  split; [done|]. split; [intros i rw; by apply (row_rect R C)|].
  split; [intros HC; by apply (init_rect R C)|].
  split; [|by split].
  intros ->. simpl. unfold init.
  destruct m as [|r0 m']; [reflexivity|].
  destruct Hm as [_ Hall]. apply Forall_cons in Hall as [H0 _].
  destruct r0; [reflexivity | discriminate].
Qed.

Lemma iter_init_round_trip_witness :
  rect 3 5 M3 /\ 0 < 3
  /\ iter M3 = Ok M3
  /\ (forall i rw, M3 !! i = Some rw -> row M3 (Z.of_nat i) = Ok rw)
  /\ (0 < 5 -> bind (iter M3) init = Ok M3)
  /\ (5 = 0 -> bind (iter M3) init = Ok [])
  /\ iter [] = Ok [] /\ (forall i, row [] i = Raise IndexError).
Proof.
  assert (H3 : rect 3 5 M3) by (split; [reflexivity | repeat constructor]).
  split; [exact H3|]. split; [lia|].
  exact (iter_init_round_trip 3 5 M3 H3 ltac:(lia)).
Defined.

(** X12.  On a matrix with [R >= 1] rows and [C] columns, [column(j)] is
    row [j] of the transpose, for every [j < C], and the diagonal is the
    diagonal of the transpose, with [min(R, C)] elements.  On the empty
    matrix [column(j)] is empty for every [j], while [diagonal()] raises
    [IndexError]. *)
Theorem column_is_row_of_transpose R C (m : matrix) :
  rect R C m -> 0 < R ->
  exists t,
    transpose m = Ok t
    /\ (forall j, j < C -> column m (Z.of_nat j) = row t (Z.of_nat j))
    /\ (exists d, diagonal m = Ok d /\ length d = Nat.min R C
                  /\ (0 < C -> diagonal t = Ok d))
    /\ (forall j, column [] j = Ok [])
    /\ diagonal [] = Raise IndexError.
Proof.
  intros Hm HR.
  destruct (transpose_rect R C m Hm HR) as (t & Ht & Hrt & Hct).
  pose proof Hm as [Hlm _]. pose proof Hrt as [Hlt _].
  exists t. split; [done|]. split; [|split; [|by split]].
  - intros j Hj.
    destruct (lookup_lt_is_Some_2 t j ltac:(lia)) as [rw Hrw].
    rewrite (row_rect C R t j rw Hrt Hrw).
    pose proof (rect_lookup _ _ _ _ _ Hrt Hrw) as Hlrw.
    unfold column, rows. rewrite Hlm.
    rewrite (mapM_map _ (fun k => default 0%Q (rw !! Z.to_nat k))).
    + by rewrite <- Hlrw, map_py_range_lookup.
    + intros r (i & -> & Hi)%In_py_range. rewrite getitem_of_nat, Nat2Z.id.
      rewrite <- (Hct j i) by done. unfold cell. rewrite Hrw.
      by destruct (lookup_lt_is_Some_2 rw i ltac:(lia)) as [x ->].
  - exists (map (fun i => elt m i i) (py_range (Nat.min R C))).
    assert (Hd : diagonal m
                 = Ok (map (fun i => elt m i i) (py_range (Nat.min R C)))).
    { unfold diagonal, rows. rewrite (columns_rect R C) by done. simpl.
      rewrite Hlm. apply mapM_map.
      intros k (i & -> & Hi)%In_py_range.
      apply (getitem_elt R C); [done | |]; apply In_py_range; exists i; lia. }
    split; [done|]. split; [by rewrite length_map, length_py_range|].
    intros HC. unfold diagonal, rows.
    rewrite (columns_rect C R) by done. simpl. rewrite Hlt.
    rewrite (Nat.min_comm C R). apply mapM_map.
    intros k (i & -> & Hi)%In_py_range.
    rewrite getitem_of_nat, Hct, (cell_elt R C) by (done || lia).
    reflexivity.
Qed.

Lemma column_is_row_of_transpose_witness :
  rect 3 5 M3 /\ 0 < 3 /\
  exists t,
    transpose M3 = Ok t
    /\ (forall j, j < 5 -> column M3 (Z.of_nat j) = row t (Z.of_nat j))
    /\ (exists d, diagonal M3 = Ok d /\ length d = Nat.min 3 5
                  /\ (0 < 5 -> diagonal t = Ok d))
    /\ (forall j, column [] j = Ok [])
    /\ diagonal [] = Raise IndexError.
Proof.
  assert (H3 : rect 3 5 M3) by (split; [reflexivity | repeat constructor]).
  split; [exact H3|]. split; [lia|].
  exact (column_is_row_of_transpose 3 5 M3 H3 ltac:(lia)).
Defined.

(** ** Positions, reading and writing *)

Lemma NoDup_py_range n : NoDup (py_range n).
Proof.
  unfold py_range. apply NoDup_fmap_2; [|apply NoDup_seq].
  intros a b. lia.
Qed.

Lemma NoDup_positions (rs cs : list Z) :
  NoDup rs -> NoDup cs ->
  NoDup (flat_map (fun c => map (fun r => (r, c)) rs) cs).
Proof.
  intros Hrs. induction 1 as [|c cs Hc Hcs IH]; simpl; [constructor|].
  apply NoDup_app. split; [|split; [|done]].
  - apply NoDup_fmap_2; [|done]. by intros a b [= ->].
  - intros p (r & -> & _)%list_elem_of_fmap Hin.
    apply list_elem_of_In, in_flat_map in Hin as (c' & Hc' & Hin).
    apply in_map_iff in Hin as (r' & [= -> ->] & _).
    by apply Hc, list_elem_of_In.
Qed.

(** X13.  On a matrix with [R >= 1] rows and [C] columns,
    [all_positions()] yields every position [(r, c)] with [r < R] and
    [c < C], each one once: [R * C] positions in all. *)
Theorem all_positions_spec R C (m : matrix) :
  rect R C m -> 0 < R ->
  exists ps,
    all_positions m = Ok ps /\ NoDup ps /\ length ps = R * C
    /\ forall p, In p ps <->
         exists i j, p = (Z.of_nat i, Z.of_nat j) /\ i < R /\ j < C.
Proof.
  intros Hm HR. unfold all_positions, rows.
  rewrite (columns_rect R C) by done. simpl.
  destruct Hm as [-> _]. eexists. split; [reflexivity|].
  split; [apply NoDup_positions; apply NoDup_py_range|].
  split; [|intros p; apply In_all_positions].
  generalize (py_range C) (length_py_range C). intros cs <-.
  induction cs as [|c cs IH]; simpl; [lia|].
  rewrite length_app, length_map, length_py_range, IH. lia.
Qed.

Lemma all_positions_spec_witness :
  rect 3 5 M3 /\ 0 < 3 /\
  exists ps,
    all_positions M3 = Ok ps /\ NoDup ps /\ length ps = 3 * 5
    /\ forall p, In p ps <->
         exists i j, p = (Z.of_nat i, Z.of_nat j) /\ i < 3 /\ j < 5.
Proof.
  assert (H3 : rect 3 5 M3) by (split; [reflexivity | repeat constructor]).
  split; [exact H3|]. split; [lia|].
  exact (all_positions_spec 3 5 M3 H3 ltac:(lia)).
Defined.




(** * More on the store: what the copies hold *)

(** The contents of a matrix object: its rows as the store has them. *)
Definition deref (h : list (list Q)) (m : list nat) : matrix :=
  map (fun l => h !!! l) m.

(** Every row reference of [m] is a row object of the store. *)
Definition valid (h : list (list Q)) (m : list nat) : Prop :=
  Forall (fun l => l < length h) m.

Lemma py_index_map {A B} (f : A -> B) (l : list A) (i : Z) :
  py_index (map f l) i
  = match py_index l i with Ok x => Ok (f x) | Raise e => Raise e end.
Proof.
  unfold py_index. rewrite length_map.
  destruct (py_pos (length l) i) as [k|]; [|reflexivity].
  rewrite list_lookup_fmap. by destruct (l !! k).
Qed.

Lemma store_columns_deref h m : Store.columns m h = columns (deref h m).
Proof.
  unfold Store.columns, columns, deref. rewrite py_index_map.
  by destruct (py_index m 0).
Qed.

Lemma store_size_deref h m : Store.size m h = size (deref h m).
Proof.
  unfold Store.size, size, Store.rows, rows, deref.
  rewrite store_columns_deref. unfold deref. by rewrite length_map.
Qed.

Lemma store_getitem_deref h m i j :
  Store.getitem m i j h = getitem (deref h m) i j.
Proof.
  unfold Store.getitem, getitem, deref. rewrite py_index_map.
  by destruct (py_index m i).
Qed.

(** Rows allocated later do not change what a valid matrix holds. *)
Lemma deref_app_l h h' m : valid h m -> deref (h ++ h') m = deref h m.
Proof.
  intros Hv. unfold deref. apply map_ext_in. intros l Hl.
  unfold valid in Hv. rewrite Forall_forall in Hv.
  apply list_elem_of_In, Hv in Hl.
  apply list_lookup_total_correct. rewrite lookup_app_l by done.
  by apply list_lookup_lookup_total_lt.
Qed.

(** The rows allocated last are the contents of the matrix made of them. *)
Lemma deref_app_r h (cur : matrix) :
  deref (h ++ cur) (seq (length h) (length cur)) = cur.
Proof.
  unfold deref. apply list_eq. intros k. rewrite list_lookup_fmap.
  destruct (cur !! k) as [rw|] eqn:Hk.
  - rewrite lookup_seq_lt by (by eapply lookup_lt_Some). simpl. f_equal.
    apply list_lookup_total_correct.
    by rewrite lookup_app_r, Nat.add_comm, Nat.add_sub by lia.
  - by rewrite lookup_seq_ge by (by apply lookup_ge_None).
Qed.

Lemma py_index_seq_from (s n : nat) (i : Z) :
  py_index (seq s n) i
  = match py_pos n i with Some k => Ok (s + k) | None => Raise IndexError end.
Proof.
  unfold py_index. rewrite length_seq.
  destruct (py_pos n i) as [k|] eqn:Hk; [|reflexivity].
  apply py_pos_lt in Hk. by rewrite lookup_seq_lt.
Qed.

(** The value-level result [p] and the store-level result [s] agree, when
    the matrix is the last rows of the store, after [pre]. *)
Definition agree_after {A} (pre : list (list Q)) (a : A)
    (p : result matrix) (s : result A * list (list Q)) : Prop :=
  match p with
  | Ok m' => s = (Ok a, pre ++ m')
  | Raise e => fst s = Raise e
  end.

Lemma setitem_last_rows pre (cur : matrix) i j v :
  agree_after pre tt (setitem cur i j v)
    (Store.setitem (seq (length pre) (length cur)) i j v (pre ++ cur)).
Proof.
  unfold Store.setitem, setitem. rewrite py_index_seq_from.
  destruct (py_index cur i) as [rw|e] eqn:Hi.
  - apply py_index_pos in Hi as (k & -> & Hk). simpl.
    assert (Hl : (pre ++ cur) !!! (length pre + k) = rw).
    { apply list_lookup_total_correct.
      by rewrite lookup_app_r, Nat.add_comm, Nat.add_sub by lia. }
    rewrite Hl. destruct (py_pos (length rw) j) as [kj|]; [|done].
    simpl. f_equal.
    rewrite insert_app_r_alt by lia.
    by rewrite Nat.add_comm, Nat.add_sub.
  - apply py_index_Raise in Hi as He. subst e.
    by rewrite (py_index_Raise_pos _ _ _ Hi).
Qed.

Section LastRows.
Variable pre : list (list Q).
Variable n : nat.
Variable pf : matrix -> Z -> Z -> result Q.
Variable sf : Z -> Z -> list (list Q) -> result Q.

(** The store-level function reads what the value-level one reads. *)
Hypothesis sf_pf : forall cur r c,
  length cur = n -> sf r c (pre ++ cur) = pf cur r c.

Lemma fill_row_last_rows (r : Z) (cs : list Z) :
  forall cur, length cur = n ->
    agree_after pre tt (fill_row pf r cs cur)
      (Store.fill_row sf (seq (length pre) n) r cs (pre ++ cur))
    /\ forall m', fill_row pf r cs cur = Ok m' -> length m' = n.
Proof.
  induction cs as [|c cs IH]; intros cur Hlen; simpl.
  - split; [reflexivity|]. by intros m' [= <-].
  - unfold Store.sbind, Store.read. rewrite sf_pf by done.
    destruct (pf cur r c) as [v|e]; simpl; [|done].
    pose proof (setitem_last_rows pre cur r c v) as Hset.
    rewrite Hlen in Hset.
    destruct (setitem cur r c v) as [m1|e] eqn:Hs; simpl in *.
    + rewrite Hset. apply IH. apply setitem_length in Hs. congruence.
    + destruct (Store.setitem (seq (length pre) n) r c v (pre ++ cur))
        as [[[]|e'] h1]; simpl in *; [discriminate|].
      split; [congruence | done].
Qed.

Lemma fill_rows_last_rows (rs : list Z) :
  forall cur, length cur = n ->
    agree_after pre tt (fill_rows pf rs cur)
      (Store.fill_rows sf (seq (length pre) n) rs (pre ++ cur)).
Proof.
  induction rs as [|r rs IH]; intros cur Hlen; simpl; [reflexivity|].
  unfold Store.sbind, Store.read.
  rewrite store_columns_deref. rewrite <- Hlen, deref_app_r.
  destruct (columns cur) as [k|e]; simpl; [|done].
  rewrite Hlen.
  destruct (fill_row_last_rows r (py_range k) cur Hlen) as [Hrow Hlen'].
  destruct (fill_row pf r (py_range k) cur) as [m1|e]; simpl in *.
  - rewrite Hrow. apply IH. by apply Hlen'.
  - match goal with |- context [Store.fill_row ?f ?a ?b ?c ?d] =>
      destruct (Store.fill_row f a b c d) as [[[]|e'] h1] end;
      simpl in *; [discriminate | congruence].
Qed.

Lemma fill_last_rows cur :
  length cur = n ->
  agree_after pre (seq (length pre) n) (fill pf cur)
    (Store.fill sf (seq (length pre) n) (pre ++ cur)).
Proof.
  intros Hlen.
  unfold fill, Store.fill, Store.sbind, Store.ret, Store.rows, rows.
  rewrite length_seq, Hlen.
  pose proof (fill_rows_last_rows (py_range n) cur Hlen) as H.
  destruct (fill_rows pf (py_range n) cur) as [m'|e]; simpl in *.
  - by rewrite H.
  - match goal with |- context [Store.fill_rows ?f ?a ?b ?c] =>
      destruct (Store.fill_rows f a b c) as [[[]|e'] h1] end;
      simpl in *; [discriminate | congruence].
Qed.
End LastRows.

Lemma store_copy_rect R C h m :
  valid h m -> rect R C (deref h m) -> 0 < R ->
  Store.copy m h = (Ok (seq (length h) R), h ++ deref h m).
Proof.
  intros Hv Hr HR. unfold Store.copy, Store.sbind, Store.read, Store.zero.
  rewrite store_size_deref, (size_rect R C) by done. simpl.
  pose proof (copy_rect R C (deref h m) Hr HR) as Hcopy.
  unfold copy in Hcopy. rewrite (size_rect R C) in Hcopy by done.
  simpl in Hcopy.
  pose proof (fill_last_rows h R
                (fun _ r c => getitem (deref h m) r c)
                (fun r c => Store.getitem m r c)) as Hfill.
  specialize (Hfill ltac:(intros cur r c _; cbv beta;
    by rewrite store_getitem_deref, deref_app_l) (zero R C)).
  rewrite Hcopy in Hfill. apply Hfill.
  unfold zero, raw. by rewrite length_replicate.
Qed.

(** X15.  [copy()] of a matrix with at least one row allocates new row
    objects after the existing ones and leaves these as they were; the
    copy holds what the matrix holds, even where rows of the matrix are
    one shared object.  On the empty matrix [copy()] raises
    [IndexError]. *)
Theorem store_copy_spec R C (h : list (list Q)) (m : list nat) :
  valid h m -> rect R C (deref h m) -> 0 < R ->
  exists new h',
    Store.copy m h = (Ok new, h')
    /\ new = seq (length h) R
    /\ h' = h ++ deref h m
    /\ deref h' new = deref h m
    /\ deref h' m = deref h m
    /\ Store.copy [] h = (Raise IndexError, h).
Proof.
  intros Hv Hr HR. eexists _, _.
  split; [by apply (store_copy_rect R C)|].
  split; [done|]. split; [done|]. split; [|split; [|done]].
  - destruct Hr as [Hlen _]. rewrite <- Hlen at 1. apply deref_app_r.
  - by apply deref_app_l.
Qed.

Lemma store_copy_spec_witness :
  let h : list (list Q) := [[1; 2]]%Q in
  valid h [0; 0] /\ rect 2 2 (deref h [0; 0]) /\ 0 < 2 /\
  exists new h',
    Store.copy [0; 0] h = (Ok new, h')
    /\ new = seq (length h) 2
    /\ h' = h ++ deref h [0; 0]
    /\ deref h' new = deref h [0; 0]
    /\ deref h' [0; 0] = deref h [0; 0]
    /\ Store.copy [] h = (Raise IndexError, h).
Proof.
  intros h.
  assert (Hv : valid h [0; 0]) by (repeat constructor).
  assert (Hr : rect 2 2 (deref h [0; 0]))
    by (split; [reflexivity | repeat constructor]).
  split; [exact Hv|]. split; [exact Hr|]. split; [lia|].
  exact (store_copy_spec 2 2 h [0; 0] Hv Hr ltac:(lia)).
Defined.

(** X16.  [A + B] on two matrices of the same shape, with at least one
    row, returns a matrix made of new row objects, allocated after the
    existing ones, whose elements are the sums of the elements of [A] and
    [B]; the existing row objects are as they were.  [A] and [B] may be the
    same matrix or share rows.  When the shapes differ, [A + B] raises
    [ValueError] after the copy of [A] was made. *)
Theorem store_add_spec R C R' C' (h : list (list Q)) (a b : list nat) :
  valid h a -> valid h b ->
  rect R C (deref h a) -> rect R' C' (deref h b) -> 0 < R -> 0 < R' ->
  ((R, C) <> (R', C') ->
     Store.add a b h = (Raise ValueError, h ++ deref h a))
  /\ ((R, C) = (R', C') ->
      exists s,
        Store.add a b h = (Ok (seq (length h) R), h ++ s)
        /\ rect R C s
        /\ forall i j, i < R -> j < C ->
             exists x y,
               cell (deref h a) i j = Some x
               /\ cell (deref h b) i j = Some y
               /\ cell s i j = Some (x + y)%Q).
Proof.
  intros Hva Hvb Hra Hrb HR HR'.
  set (A := deref h a). set (B := deref h b).
  assert (HlA : length A = R) by (by destruct Hra).
  assert (Hadd : Store.add a b h
            = Store.iadd (seq (length h) R) b (h ++ A)).
  { unfold Store.add, Store.sbind.
    by rewrite (store_copy_rect R C h a Hva Hra HR). }
  assert (Hs1 : Store.size (seq (length h) R) (h ++ A) = Ok (R, C)).
  { rewrite store_size_deref. rewrite <- HlA at 1.
    rewrite deref_app_r. by apply size_rect. }
  assert (Hs2 : Store.size b (h ++ A) = Ok (R', C')).
  { rewrite store_size_deref, deref_app_l by done. by apply size_rect. }
  rewrite Hadd. unfold Store.iadd, Store.sbind, Store.read, Store.raise.
  rewrite Hs1, Hs2. split.
  - intros Hne. by rewrite bool_decide_eq_false_2.
  - intros Heq. rewrite bool_decide_eq_true_2 by done. simpl.
    injection Heq as <- <-.
    destruct (fill_spec R C
                (fun cur r c => x <- getitem cur r c ;;
                                y <- getitem B r c ;; Ok (x + y)%Q)
                (fun i j => elt A (Z.of_nat i) (Z.of_nat j)
                            + elt B (Z.of_nat i) (Z.of_nat j))%Q A)
      as (s & Hfill & Hrs & Hcs).
    { intros cur i j Hi Hj _ Hcur.
      rewrite getitem_of_nat, Hcur, (cell_elt R C A) by done. simpl.
      rewrite getitem_of_nat, (cell_elt R C B) by done. reflexivity. }
    { done. }
    pose proof (fill_last_rows h R
                  (fun cur r c => x <- getitem cur r c ;;
                                  y <- getitem B r c ;; Ok (x + y)%Q)
                  (fun r c h' => x <- Store.getitem (seq (length h) R) r c h' ;;
                                 y <- Store.getitem b r c h' ;;
                                 Ok (x + y)%Q)) as Hsim.
    specialize (Hsim ltac:(intros cur r c Hlen; cbv beta;
      rewrite !store_getitem_deref, (deref_app_l h cur b) by done;
      rewrite <- Hlen, deref_app_r; reflexivity) A HlA).
    rewrite Hfill in Hsim. exists s. split; [exact Hsim|]. split; [done|].
    intros i j Hi Hj.
    exists (elt A (Z.of_nat i) (Z.of_nat j)), (elt B (Z.of_nat i) (Z.of_nat j)).
    split; [by apply (cell_elt R C)|]. split; [by apply (cell_elt R C)|].
    by apply Hcs.
Qed.

Lemma store_add_spec_witness :
  let h : list (list Q) := [[1; 2]; [3; 4]; [5; 6; 7]]%Q in
  (exists s,
     Store.add [0; 1] [1; 1] h = (Ok (seq (length h) 2), h ++ s)
     /\ rect 2 2 s
     /\ forall i j, i < 2 -> j < 2 ->
          exists x y,
            cell (deref h [0; 1]) i j = Some x
            /\ cell (deref h [1; 1]) i j = Some y
            /\ cell s i j = Some (x + y)%Q)
  /\ Store.add [0; 1] [2] h = (Raise ValueError, h ++ deref h [0; 1]).
Proof.
  intros h.
  assert (Hva : valid h [0; 1]) by (repeat constructor).
  assert (Hvb : valid h [1; 1]) by (repeat constructor).
  assert (Hvc : valid h [2]) by (repeat constructor).
  assert (Hra : rect 2 2 (deref h [0; 1]))
    by (split; [reflexivity | repeat constructor]).
  assert (Hrb : rect 2 2 (deref h [1; 1]))
    by (split; [reflexivity | repeat constructor]).
  assert (Hrc : rect 1 3 (deref h [2]))
    by (split; [reflexivity | repeat constructor]).
  split.
  - by apply (proj2 (store_add_spec 2 2 2 2 h [0; 1] [1; 1] Hva Hvb Hra Hrb
                       ltac:(lia) ltac:(lia))).
  - apply (proj1 (store_add_spec 2 2 1 3 h [0; 1] [2] Hva Hvc Hra Hrc
                    ltac:(lia) ltac:(lia))).
    intros [=].
Defined.

(** X17.  Row objects shared and distinct.  If two row indices of a
    matrix refer to one row object, as [raw] allows, an element written
    through one index is read through the other.  The rows that [zero]
    allocates are distinct objects: an element written in one row leaves
    the other rows as they were. *)
Theorem rows_shared_or_distinct (h : list (list Q)) (m : list nat)
    (i i' j : Z) (v : Q) (l : nat) :
  (valid h m -> py_index m i = Ok l -> py_index m i' = Ok l ->
   forall h', Store.setitem m i j v h = (Ok tt, h') ->
     Store.getitem m i' j h' = Ok v)
  /\ (forall R C new h1 ki ki' h2,
        Store.zero R C h = (Ok new, h1) ->
        py_pos R i = Some ki -> py_pos R i' = Some ki' -> ki <> ki' ->
        Store.setitem new i j v h1 = (Ok tt, h2) ->
        h2 !!! (new !!! ki') = h1 !!! (new !!! ki')
        /\ forall j', Store.getitem new i' j' h2
                      = Store.getitem new i' j' h1).
Proof.
  split.
  - intros Hv Hi Hi' h'. unfold Store.setitem, Store.getitem.
    rewrite Hi, Hi'. simpl.
    destruct (py_pos (length (h !!! l)) j) as [k|] eqn:Hk; [|discriminate].
    intros [= <-].
    assert (Hl : l < length h).
    { unfold valid in Hv. rewrite Forall_forall in Hv.
      by apply Hv, (Store.py_index_elem_of m i). }
    rewrite list_lookup_total_insert_eq by done.
    unfold py_index. rewrite length_insert, Hk.
    apply py_pos_lt in Hk. by rewrite list_lookup_insert_eq.
  - intros R C new h1 ki ki' h2. unfold Store.zero. intros [= <- <-].
    intros Hki Hki' Hne. unfold Store.setitem, Store.getitem.
    rewrite !py_index_seq_from, Hki, Hki'. simpl.
    apply py_pos_lt in Hki as Hlt. apply py_pos_lt in Hki' as Hlt'.
    rewrite !lookup_total_seq_lt by done.
    destruct (py_pos _ j) as [k|]; [|discriminate]. intros [= <-].
    rewrite list_lookup_total_insert_ne by lia. by split.
Qed.

Lemma rows_shared_or_distinct_witness :
  let h : list (list Q) := [[1; 2]]%Q in
  Store.setitem [0; 0] 0 1 9 h = (Ok tt, [[1; 9]]%Q)
  /\ Store.getitem [0; 0] 1 1 [[1; 9]]%Q = Ok 9%Q.
Proof.
  intros h. split; [reflexivity|].
  apply (proj1 (rows_shared_or_distinct h [0; 0] 0 1 1 9 0));
    [repeat constructor | reflexivity | reflexivity | reflexivity].
Defined.

(** * Elementary row operations *)

(** [for c in range(self.columns): body], on the matrix as it is. *)
Fixpoint for_cols (body : matrix -> Z -> result matrix) (cs : list Z)
    (m : matrix) : result matrix :=
  match cs with
  | [] => Ok m
  | c :: cs' => m' <- body m c ;; for_cols body cs' m'
  end.

(** [rowadd(i, j, k)]: [self[i, c] += self[j, c] * k]. *)
Definition rowadd (m : matrix) (i j : Z) (k : Q) : result matrix :=
  n <- columns m ;;
  for_cols (fun self c =>
              x <- getitem self i c ;;
              y <- getitem self j c ;;
              setitem self i c (x + y * k)%Q)
           (py_range n) m.

(** [rowmult(i, k)]: [self[i, c] *= k]. *)
Definition rowmult (m : matrix) (i : Z) (k : Q) : result matrix :=
  n <- columns m ;;
  for_cols (fun self c => x <- getitem self i c ;; setitem self i c (x * k)%Q)
           (py_range n) m.

(** [rowswap(i, j)]: [self[i, c], self[j, c] = self[j, c], self[i, c]]; the
    right-hand side is read first, then the two targets are written from
    left to right. *)
Definition rowswap (m : matrix) (i j : Z) : result matrix :=
  n <- columns m ;;
  for_cols (fun self c =>
              y <- getitem self j c ;;
              x <- getitem self i c ;;
              self' <- setitem self i c y ;;
              setitem self' j c x)
           (py_range n) m.

(** The keyword arguments of [ielem], [elem] and [elementary]: [i] is
    given; [j] and [k] are given or absent ([None] counts as absent). *)
Record kwargs : Type := Kwargs { kw_i : Z; kw_j : option Z; kw_k : option Q }.

(** [ielem] either raises [NameError], before it touches the matrix, or
    does what the row operation does. *)
Inductive name_error : Type := NameError.

(** [ielem], called with keyword arguments. *)
Definition ielem (m : matrix) (kw : kwargs) : name_error + result matrix :=
  match kw_j kw with
  | None =>
      match kw_k kw with
      | None => inl NameError
      | Some k => inr (rowmult m (kw_i kw) k)
      end
  | Some j =>
      match kw_k kw with
      | None => inr (rowswap m (kw_i kw) j)
      | Some k => inr (rowadd m (kw_i kw) j k)
      end
  end.

(** [elem]: [ielem] with the same keyword arguments on [self.copy()]. *)
Definition elem (m : matrix) (kw : kwargs) : name_error + result matrix :=
  match copy m with
  | Ok new => ielem new kw
  | Raise e => inr (Raise e)
  end.

(** [Matrix.elementary]: [ielem] with the same keyword arguments on
    [Matrix.identity(n)]. *)
Definition elementary (n : nat) (kw : kwargs) : name_error + result matrix :=
  match identity n with
  | Ok i => ielem i kw
  | Raise e => inr (Raise e)
  end.

Section ForCols.
Variables R C : nat.
Variable body : matrix -> Z -> result matrix.
Variable g : nat -> nat -> Q.
Variable m0 : matrix.

(** One turn of the loop rewrites column [c], given that this column
    still holds what it held at the start. *)
Hypothesis body_ok : forall cur c,
  c < C -> rect R C cur ->
  (forall a, a < R -> cell cur a c = cell m0 a c) ->
  exists cur',
    body cur (Z.of_nat c) = Ok cur' /\ rect R C cur' /\
    forall a b, a < R -> b < C ->
      cell cur' a b = if decide (b = c) then Some (g a c) else cell cur a b.

Lemma for_cols_inv : forall n c cur,
  c + n = C -> rect R C cur ->
  (forall a b, a < R -> b < C ->
     cell cur a b = if decide (b < c) then Some (g a b) else cell m0 a b) ->
  exists m', for_cols body (map Z.of_nat (seq c n)) cur = Ok m'
    /\ rect R C m'
    /\ forall a b, a < R -> b < C -> cell m' a b = Some (g a b).
Proof.
  induction n as [|n IH]; intros c cur Hc Hrect Hcell; simpl.
  - exists cur. split; [done|]. split; [done|]. intros a b Ha Hb.
    rewrite Hcell by done. by rewrite decide_True by lia.
  - destruct (body_ok cur c) as (cur1 & -> & Hr1 & Hc1); [lia | done | |].
    { intros a Ha. rewrite Hcell by lia. by rewrite decide_False by lia. }
    simpl. apply IH; [lia | done |]. intros a b Ha Hb.
    rewrite Hc1, Hcell by done.
    repeat case_decide; subst; done || lia.
Qed.

Lemma for_cols_spec :
  rect R C m0 ->
  exists m', for_cols body (py_range C) m0 = Ok m' /\ rect R C m'
    /\ forall a b, a < R -> b < C -> cell m' a b = Some (g a b).
Proof.
  intros Hrect. apply for_cols_inv; [lia | done |].
  intros a b Ha Hb. by rewrite decide_False by lia.
Qed.
End ForCols.

(** The row that ends up at index [a] after rows [i] and [j] are
    exchanged. *)
Definition swapped (i j a : nat) : nat :=
  if decide (a = i) then j else if decide (a = j) then i else a.

Lemma swapped_lt R i j a : i < R -> j < R -> a < R -> swapped i j a < R.
Proof. unfold swapped. intros. repeat case_decide; lia. Qed.


Lemma rowswap_rect R C (m : matrix) (i j : nat) :
  rect R C m -> i < R -> j < R ->
  exists m',
    rowswap m (Z.of_nat i) (Z.of_nat j) = Ok m' /\ rect R C m'
    /\ forall a b, a < R -> b < C ->
         cell m' a b = Some (elt m (Z.of_nat (swapped i j a)) (Z.of_nat b)).
Proof.
  intros Hm Hi Hj. unfold rowswap.
  rewrite (columns_rect R C) by (done || lia). simpl.
  apply (for_cols_spec R C); [|done].
  intros cur c Hc Hcur Hcol.
  rewrite !getitem_of_nat, !Hcol, !(cell_elt R C m) by done. simpl.
  destruct (setitem_rect R C cur i c
              (elt m (Z.of_nat j) (Z.of_nat c)) Hcur Hi Hc)
    as (cur1 & -> & Hr1 & Hc1). simpl.
  destruct (setitem_rect R C cur1 j c
              (elt m (Z.of_nat i) (Z.of_nat c)) Hr1 Hj Hc)
    as (cur2 & -> & Hr2 & Hc2).
  exists cur2. split; [done|]. split; [done|]. intros a b Ha Hb.
  rewrite Hc2, Hc1. unfold swapped.
  repeat case_decide; subst; try (done || lia || tauto);
    destruct_and?; subst; try (done || lia).
  rewrite Hcol by done. by apply (cell_elt R C).
Qed.

Lemma rowmult_rect R C (m : matrix) (i : nat) (k : Q) :
  rect R C m -> i < R ->
  exists m',
    rowmult m (Z.of_nat i) k = Ok m' /\ rect R C m'
    /\ forall a b, a < R -> b < C ->
         cell m' a b
         = Some (if decide (a = i)
                 then elt m (Z.of_nat a) (Z.of_nat b) * k
                 else elt m (Z.of_nat a) (Z.of_nat b))%Q.
Proof.
  intros Hm Hi. unfold rowmult.
  rewrite (columns_rect R C) by (done || lia). simpl.
  apply (for_cols_spec R C); [|done].
  intros cur c Hc Hcur Hcol.
  rewrite !getitem_of_nat, !Hcol, !(cell_elt R C m) by done. simpl.
  destruct (setitem_rect R C cur i c
              (elt m (Z.of_nat i) (Z.of_nat c) * k)%Q Hcur Hi Hc)
    as (cur1 & -> & Hr1 & Hc1).
  exists cur1. split; [done|]. split; [done|]. intros a b Ha Hb.
  rewrite Hc1.
  repeat case_decide; subst; try (done || lia || tauto);
    destruct_and?; subst; try (done || lia).
  rewrite Hcol by done. by apply (cell_elt R C).
Qed.

Lemma rowadd_rect R C (m : matrix) (i j : nat) (k : Q) :
  rect R C m -> i < R -> j < R ->
  exists m',
    rowadd m (Z.of_nat i) (Z.of_nat j) k = Ok m' /\ rect R C m'
    /\ forall a b, a < R -> b < C ->
         cell m' a b
         = Some (if decide (a = i)
                 then elt m (Z.of_nat i) (Z.of_nat b)
                      + elt m (Z.of_nat j) (Z.of_nat b) * k
                 else elt m (Z.of_nat a) (Z.of_nat b))%Q.
Proof.
  intros Hm Hi Hj. unfold rowadd.
  rewrite (columns_rect R C) by (done || lia). simpl.
  apply (for_cols_spec R C); [|done].
  intros cur c Hc Hcur Hcol.
  rewrite !getitem_of_nat, !Hcol, !(cell_elt R C m) by done. simpl.
  destruct (setitem_rect R C cur i c
              (elt m (Z.of_nat i) (Z.of_nat c)
               + elt m (Z.of_nat j) (Z.of_nat c) * k)%Q Hcur Hi Hc)
    as (cur1 & -> & Hr1 & Hc1).
  exists cur1. split; [done|]. split; [done|]. intros a b Ha Hb.
  rewrite Hc1.
  repeat case_decide; subst; try (done || lia || tauto);
    destruct_and?; subst; try (done || lia).
  rewrite Hcol by done. by apply (cell_elt R C).
Qed.





(** ** Elementary matrices *)

Lemma sum_ext_in (F G : nat -> Q) (l : list nat) :
  (forall b, In b l -> (F b == G b)%Q) ->
  (fold_right Qplus 0 (map F l) == fold_right Qplus 0 (map G l))%Q.
Proof.
  induction l as [|b l IH]; simpl; intros H; [reflexivity|].
  rewrite (H b) by auto. rewrite IH by auto. reflexivity.
Qed.

Lemma sum_plus (F G : nat -> Q) (l : list nat) :
  (fold_right Qplus 0 (map (fun b => F b + G b) l)
   == fold_right Qplus 0 (map F l) + fold_right Qplus 0 (map G l))%Q.
Proof.
  induction l as [|b l IH]; simpl; [ring|]. rewrite IH. ring.
Qed.

(** The sum of [delta s b * f b] over [b < n] is [f s]. *)
Lemma sum_delta (f : nat -> Q) (s n : nat) :
  s < n ->
  (fold_right Qplus 0 (map (fun b => delta s b * f b) (seq 0 n)) == f s)%Q.
Proof.
  intros Hs.
  rewrite (sum_single (fun b => delta s b * f b)%Q s (f s)).
  - by rewrite decide_True by lia.
  - intros b Hb. unfold delta. rewrite decide_False by congruence. ring.
  - unfold delta. rewrite decide_True by done. ring.
Qed.

(** The dot product with a row whose elements are known. *)
Lemma dot_known_row n (E m : matrix) (a c : nat) (e : nat -> Q) :
  (forall b, b < n -> (elt E (Z.of_nat a) (Z.of_nat b) == e b)%Q) ->
  (dot E m n a c
   == fold_right Qplus 0
        (map (fun b => e b * elt m (Z.of_nat b) (Z.of_nat c)) (seq 0 n)))%Q.
Proof.
  intros He. unfold dot, py_sum, py_range.
  rewrite fold_left_Qplus, map_map, Qplus_0_l.
  apply sum_ext_in. intros b Hb%in_seq. rewrite He by lia. reflexivity.
Qed.

(** X20.  An elementary matrix stands for its row operation: for a matrix
    [M] with [n >= 1] rows, and keyword arguments that name rows in range
    and give [j] or [k] or both, [Matrix.elementary(n, ...) @ M] and
    [M.elem(...)] are matrices of the shape of [M] with equal elements. *)
Theorem elementary_matmul_is_elem n C (m : matrix) (kw : kwargs) (i : nat) :
  rect n C m -> 0 < n ->
  kw_i kw = Z.of_nat i -> i < n ->
  (forall jz, kw_j kw = Some jz -> exists j, jz = Z.of_nat j /\ j < n) ->
  (kw_j kw = None -> kw_k kw <> None) ->
  exists E p q,
    elementary n kw = inr (Ok E) /\ matmul E m = Ok p
    /\ elem m kw = inr (Ok q) /\ rect n C p /\ rect n C q
    /\ forall a c, a < n -> c < C ->
         exists x y,
           cell p a c = Some x /\ cell q a c = Some y /\ (x == y)%Q.
Proof.
  intros Hm Hn Hi Hin Hj Hk.
  destruct (identity_rect n) as (idn & Hidn & Hridn & Hcidn).
  pose proof (copy_rect n C m Hm Hn) as Hcopy.
  assert (Hidelt : forall a b, a < n -> b < n ->
            elt idn (Z.of_nat a) (Z.of_nat b) = delta a b)
    by (intros; by apply (elt_identity n)).
  unfold elementary, elem, ielem. rewrite Hidn, Hcopy, Hi.
  destruct (kw_j kw) as [jz|] eqn:Hkj.
  - destruct (Hj jz eq_refl) as (j & -> & Hjn).
    destruct (kw_k kw) as [k|].
    + (* rowadd *)
      destruct (rowadd_rect n n idn i j k Hridn Hin Hjn)
        as (E & HE & HrE & HcE).
      destruct (rowadd_rect n C m i j k Hm Hin Hjn) as (q & Hq & Hrq & Hcq).
      destruct (matmul_rect n n C E m HrE Hm Hn Hn) as (p & Hp & Hrp & Hcp).
      exists E, p, q. rewrite HE, Hq. repeat (split; [done|]).
      intros a c Ha Hc. eexists _, _.
      split; [by apply Hcp|]. split; [by apply Hcq|].
      destruct (decide (a = i)) as [->|Hne].
      * rewrite (dot_known_row n E m i c
                   (fun b => delta i b + delta j b * k)%Q).
        2: { intros b Hb. unfold elt at 1. rewrite !Nat2Z.id, HcE by done.
             simpl. rewrite decide_True by done. by rewrite !Hidelt. }
        rewrite (sum_ext_in _
          (fun b => delta i b * elt m (Z.of_nat b) (Z.of_nat c)
                    + delta j b * (k * elt m (Z.of_nat b) (Z.of_nat c)))%Q)
          by (intros; ring).
        rewrite sum_plus.
        rewrite (sum_delta (fun b => elt m (Z.of_nat b) (Z.of_nat c)) i n Hin).
        rewrite (sum_delta
                   (fun b => k * elt m (Z.of_nat b) (Z.of_nat c))%Q j n Hjn).
        ring.
      * rewrite (dot_known_row n E m a c (fun b => delta a b)).
        2: { intros b Hb. unfold elt at 1. rewrite !Nat2Z.id, HcE by done.
             simpl. rewrite decide_False by done. by rewrite !Hidelt. }
        by rewrite (sum_delta (fun b => elt m (Z.of_nat b) (Z.of_nat c)) a n Ha).
    + (* rowswap *)
      destruct (rowswap_rect n n idn i j Hridn Hin Hjn)
        as (E & HE & HrE & HcE).
      destruct (rowswap_rect n C m i j Hm Hin Hjn) as (q & Hq & Hrq & Hcq).
      destruct (matmul_rect n n C E m HrE Hm Hn Hn) as (p & Hp & Hrp & Hcp).
      exists E, p, q. rewrite HE, Hq. repeat (split; [done|]).
      intros a c Ha Hc. eexists _, _.
      split; [by apply Hcp|]. split; [by apply Hcq|].
      pose proof (swapped_lt n i j a Hin Hjn Ha) as Hs.
      rewrite (dot_known_row n E m a c (fun b => delta (swapped i j a) b)).
      2: { intros b Hb. unfold elt at 1. rewrite !Nat2Z.id, HcE by done.
           simpl. by rewrite !Hidelt. }
      by rewrite (sum_delta (fun b => elt m (Z.of_nat b) (Z.of_nat c))
                    (swapped i j a) n Hs).
  - destruct (kw_k kw) as [k|]; [|by destruct Hk].
    (* rowmult *)
    destruct (rowmult_rect n n idn i k Hridn Hin) as (E & HE & HrE & HcE).
    destruct (rowmult_rect n C m i k Hm Hin) as (q & Hq & Hrq & Hcq).
    destruct (matmul_rect n n C E m HrE Hm Hn Hn) as (p & Hp & Hrp & Hcp).
    exists E, p, q. rewrite HE, Hq. repeat (split; [done|]).
    intros a c Ha Hc. eexists _, _.
    split; [by apply Hcp|]. split; [by apply Hcq|].
    destruct (decide (a = i)) as [->|Hne].
    + rewrite (dot_known_row n E m i c (fun b => delta i b * k)%Q).
      2: { intros b Hb. unfold elt at 1. rewrite !Nat2Z.id, HcE by done.
           simpl. rewrite decide_True by done. by rewrite !Hidelt. }
      rewrite (sum_ext_in _
        (fun b => delta i b * (k * elt m (Z.of_nat b) (Z.of_nat c)))%Q)
        by (intros; ring).
      rewrite (sum_delta
                 (fun b => k * elt m (Z.of_nat b) (Z.of_nat c))%Q i n Hin).
      ring.
    + rewrite (dot_known_row n E m a c (fun b => delta a b)).
      2: { intros b Hb. unfold elt at 1. rewrite !Nat2Z.id, HcE by done.
           simpl. rewrite decide_False by done. by rewrite !Hidelt. }
      by rewrite (sum_delta (fun b => elt m (Z.of_nat b) (Z.of_nat c)) a n Ha).
Qed.

Lemma elementary_matmul_is_elem_witness :
  rect 3 5 M3 /\ 0 < 3 /\
  exists E p q,
    elementary 3 (Kwargs 2 (Some 0%Z) (Some 2%Q)) = inr (Ok E)
    /\ matmul E M3 = Ok p
    /\ elem M3 (Kwargs 2 (Some 0%Z) (Some 2%Q)) = inr (Ok q)
    /\ rect 3 5 p /\ rect 3 5 q
    /\ forall a c, a < 3 -> c < 5 ->
         exists x y,
           cell p a c = Some x /\ cell q a c = Some y /\ (x == y)%Q.
Proof.
  assert (H3 : rect 3 5 M3) by (split; [reflexivity | repeat constructor]).
  split; [exact H3|]. split; [lia|].
  apply (elementary_matmul_is_elem 3 5 M3 (Kwargs 2 (Some 0%Z) (Some 2%Q)) 2);
    [exact H3 | lia | reflexivity | lia | | discriminate].
  intros jz [= <-]. exists 0. split; [reflexivity | lia].
Defined.



(** ** More on submatrices and determinants *)

Lemma range_without_lookup n (k a : nat) :
  k < n -> a < n - 1 ->
  range_without n (Z.of_nat k) !! a
  = Some (Z.of_nat (if decide (a < k) then a else S a)).
Proof.
  induction n as [|n IH]; [lia|]. intros Hk Ha.
  unfold range_without in *. rewrite py_range_S, List.filter_app.
  destruct (decide (k = n)) as [->|Hne].
  - pose proof (length_range_without_ge n n ltac:(lia)) as Hge.
    unfold range_without in Hge. rewrite Hge.
    rewrite lookup_app_l by (rewrite length_py_range; lia).
    unfold py_range. rewrite list_lookup_fmap, lookup_seq_lt by lia.
    simpl. by rewrite decide_True by lia.
  - destruct (decide (a < n - 1)) as [Hlt|Hge].
    + rewrite lookup_app_l.
      * apply IH; lia.
      * pose proof (length_range_without n k ltac:(lia)) as Hl.
        unfold range_without in Hl. rewrite Hl. lia.
    + pose proof (length_range_without n k ltac:(lia)) as Hl.
      unfold range_without in Hl.
      rewrite lookup_app_r by (rewrite Hl; lia). rewrite Hl.
      replace (a - (n - 1)) with 0 by lia. simpl.
      destruct (Z.eqb_spec (Z.of_nat n) (Z.of_nat k)); [lia|]. simpl.
      rewrite decide_False by lia. f_equal. lia.
Qed.

Lemma submatrix_cells R C m (r c : nat) :
  rect R C m -> r < R -> c < C ->
  exists sub,
    submatrix m [Z.of_nat r] [Z.of_nat c] = Ok sub
    /\ rect (R - 1) (C - 1) sub
    /\ forall a b, a < R - 1 -> b < C - 1 ->
         cell sub a b
         = cell m (if decide (a < r) then a else S a)
                  (if decide (b < c) then b else S b).
Proof.
  intros Hm Hr Hc.
  destruct (submatrix_rect_shape R C m r c Hm Hr Hc) as (sub & Hsub & Hrect).
  exists sub. split; [done|]. split; [done|]. intros a b Ha Hb.
  rewrite (submatrix_rect R C) in Hsub by done. injection Hsub as <-.
  unfold cell at 1. rewrite list_lookup_fmap.
  rewrite range_without_lookup by done. simpl.
  rewrite list_lookup_fmap, range_without_lookup by done. simpl.
  symmetry. apply (cell_elt R C); [done | |]; case_decide; lia.
Qed.

(** X22.  [submatrix([r], [c])] of a rectangular matrix, for [r] and [c]
    in range, has one row and one column less; its element [(a, b)] is the
    element of the matrix at the same position, moved one down from row
    [r] on and one right from column [c] on.  With nothing to delete, or
    only indices out of range, [submatrix] returns an equal matrix. *)
Theorem submatrix_spec R C (m : matrix) (r c : nat) :
  rect R C m -> r < R -> c < C ->
  (exists sub,
     submatrix m [Z.of_nat r] [Z.of_nat c] = Ok sub
     /\ rect (R - 1) (C - 1) sub
     /\ forall a b, a < R - 1 -> b < C - 1 ->
          cell sub a b
          = cell m (if decide (a < r) then a else S a)
                   (if decide (b < c) then b else S b))
  /\ submatrix m [] [] = Ok m
  /\ submatrix m [Z.of_nat R] [Z.of_nat C] = Ok m.
Proof.
  intros Hm Hr Hc. split; [by apply submatrix_cells|].
  assert (Hall : forall dr dc,
    range_without R dr = py_range R -> range_without C dc = py_range C ->
    submatrix m [dr] [dc] = Ok m).
  { intros dr dc Hdr Hdc. rewrite (submatrix_rect R C) by done.
    rewrite Hdr, Hdc. f_equal. apply (rect_ext R C); [|done|].
    - split; [by rewrite length_map, length_py_range|].
      apply Forall_forall. intros rw (i & -> & _)%list_elem_of_fmap.
      by rewrite length_map, length_py_range.
    - intros a b Ha Hb. unfold cell at 1. unfold py_range.
      rewrite !list_lookup_fmap, lookup_seq_lt by done. simpl.
      rewrite !list_lookup_fmap, lookup_seq_lt by done. simpl.
      symmetry. by apply (cell_elt R C). }
  split.
  - unfold submatrix. simpl.
    assert (Hf : forall l : list Z, List.filter (fun _ => true) l = l).
    { intros l. apply forallb_filter_id. by apply forallb_forall. }
    unfold rows. pose proof Hm as [Hlen _]. rewrite Hf.
    rewrite (mapM_map _ (fun i => default [] (m !! Z.to_nat i))).
    + by rewrite map_py_range_lookup.
    + intros i (a & -> & Ha)%In_py_range. rewrite Nat2Z.id.
      rewrite (columns_rect R C m) by (done || lia). simpl. rewrite Hf.
      destruct (lookup_lt_is_Some_2 m a ltac:(lia)) as [rw Hrw].
      rewrite Hrw. simpl.
      assert (Hlrw : length rw = C) by (by eapply (rect_lookup R C m)).
      rewrite (mapM_map _ (fun k => default 0%Q (rw !! Z.to_nat k))).
      * by rewrite <- Hlrw, map_py_range_lookup.
      * intros j (b & -> & Hb)%In_py_range. rewrite getitem_of_nat.
        unfold cell. rewrite Hrw, Nat2Z.id.
        by destruct (lookup_lt_is_Some_2 rw b ltac:(lia)) as [x ->].
  - apply Hall; by apply length_range_without_ge.
Qed.

Lemma submatrix_spec_witness :
  rect 3 3 M2 /\ 1 < 3 /\ 0 < 3 /\
  (exists sub,
     submatrix M2 [1%Z] [0%Z] = Ok sub
     /\ rect 2 2 sub
     /\ forall a b, a < 2 -> b < 2 ->
          cell sub a b
          = cell M2 (if decide (a < 1) then a else S a)
                    (if decide (b < 0) then b else S b))
  /\ submatrix M2 [] [] = Ok M2
  /\ submatrix M2 [3%Z] [3%Z] = Ok M2.
Proof.
  assert (H2 : rect 3 3 M2) by (split; [reflexivity | repeat constructor]).
  split; [exact H2|]. split; [lia|]. split; [lia|].
  exact (submatrix_spec 3 3 M2 1 0 H2 ltac:(lia) ltac:(lia)).
Defined.

Lemma determinant_fuel_Raise fuel : forall m e,
  length m < fuel -> determinant_fuel fuel m = Raise e ->
  e = IndexError \/ e = ValueError.
Proof.
  induction fuel as [|fuel IH]; intros m e Hlen; [lia|].
  rewrite determinant_fuel_S.
  intros [->|[->|(c & sub & Hm & Hsub & Hrec)]]%determinant_body_Raise;
    [by left | by right |].
  apply submatrix_row0_length in Hsub. apply (IH sub); [lia | done].
Qed.

(** X23.  [determinant()] comes to an end on every matrix, whatever the
    lengths of its rows: it returns a number, or raises [IndexError] or
    [ValueError]. *)
Theorem determinant_terminates (m : matrix) :
  (exists d, determinant m = Ok d)
  \/ determinant m = Raise IndexError
  \/ determinant m = Raise ValueError.
Proof.
  destruct (determinant m) as [d|e] eqn:Hd; [left; eauto|right].
  unfold determinant in Hd. apply determinant_fuel_Raise in Hd as [->| ->];
    [by left | by right | unfold rows; lia].
Qed.

(** On a square matrix with at least three rows, [determinant()] is the
    sum of its terms, each minor being a number. *)
Lemma determinant_rect_sum n m :
  3 <= n -> rect n n m ->
  determinant m
  = Ok (py_sum (map (fun c => elt m 0 c * minor_val m 0 (Z.to_nat c)
                              * neg_one_pow (c mod 2))%Q
                    (py_range n))).
Proof.
  intros Hn Hm. rewrite determinant_unfold.
  rewrite (is_square_rect n n), Nat.eqb_refl by (done || lia). simpl.
  rewrite (size_rect n n) by (done || lia). simpl.
  destruct (Nat.eqb_spec n 2) as [|_]; [lia|]. simpl.
  rewrite (columns_rect n n) by (done || lia). simpl.
  rewrite (mapM_map _ (fun c => elt m 0 c * minor_val m 0 (Z.to_nat c)
                                * neg_one_pow (c mod 2))%Q); [done|].
  intros c (k & -> & Hk)%In_py_range.
  rewrite (getitem_elt n n m 0 (Z.of_nat k) Hm);
    [|apply In_py_range; exists 0; lia | apply In_py_range; exists k; lia].
  simpl. rewrite Nat2Z.id.
  change 0%Z with (Z.of_nat 0) at 1.
  by rewrite (minor_rect_Ok n m 0 k) by (done || lia).
Qed.

Lemma determinant_delta n : 2 <= n -> forall m,
  rect n n m ->
  (forall a b, a < n -> b < n -> cell m a b = Some (delta a b)) ->
  exists d, determinant m = Ok d /\ (d == 1)%Q.
Proof.
  induction n as [n IH] using lt_wf_ind. intros Hn m Hm Hcell.
  destruct (decide (n = 2)) as [->|Hne].
  { destruct (rect_2_2 m Hm) as (a & b & c & d & ->).
    pose proof (Hcell 0 0 ltac:(lia) ltac:(lia)) as H00.
    pose proof (Hcell 0 1 ltac:(lia) ltac:(lia)) as H01.
    pose proof (Hcell 1 0 ltac:(lia) ltac:(lia)) as H10.
    pose proof (Hcell 1 1 ltac:(lia) ltac:(lia)) as H11.
    injection H00 as ->. injection H01 as ->.
    injection H10 as ->. injection H11 as ->.
    eexists. split; [apply determinant_2_2|]. reflexivity. }
  rewrite (determinant_rect_sum n m) by (done || lia).
  eexists. split; [reflexivity|].
  assert (Helt : forall a b, a < n -> b < n ->
            elt m (Z.of_nat a) (Z.of_nat b) = delta a b).
  { intros a b Ha Hb. unfold elt. by rewrite !Nat2Z.id, Hcell. }
  rewrite (map_ext_in _
    (fun c => (fun k => delta 0 k * minor_val m 0 k
                        * neg_one_pow (Z.of_nat k mod 2))%Q (Z.to_nat c))).
  2: { intros c (k & -> & Hk)%In_py_range. rewrite Nat2Z.id.
       change 0%Z with (Z.of_nat 0) at 1. by rewrite Helt by lia. }
  apply (py_sum_single
           (fun k => delta 0 k * minor_val m 0 k
                     * neg_one_pow (Z.of_nat k mod 2))%Q 0 n); [| |lia].
  - intros k Hk. unfold delta. rewrite decide_False by congruence. ring.
  - unfold minor_val, minor.
    destruct (submatrix_cells n n m 0 0 Hm) as (sub & -> & Hrs & Hcs);
      [lia | lia|]. simpl.
    destruct (IH (n - 1) ltac:(lia) ltac:(lia) sub Hrs) as (d & -> & Hd).
    + intros a b Ha Hb. rewrite Hcs by done.
      rewrite !decide_False by lia. rewrite Hcell by lia.
      unfold delta. repeat case_decide; (done || lia).
    + rewrite Hd. reflexivity.
Qed.

(** X24.  The determinant of [identity(n)] is 1 for every [n >= 2]; for
    [n = 1] and [n = 0] it raises [IndexError]. *)
Theorem determinant_identity (n : nat) :
  exists idn,
    identity n = Ok idn
    /\ (2 <= n -> exists d, determinant idn = Ok d /\ (d == 1)%Q)
    /\ (n < 2 -> determinant idn = Raise IndexError).
Proof.
  destruct (identity_rect n) as (idn & Hid & Hr & Hc).
  exists idn. split; [done|]. split.
  - intros Hn. by apply (determinant_delta n).
  - intros Hn. destruct n as [|[|]]; try lia.
    + destruct Hr as [Hlen _]. by destruct idn.
    + injection Hid as <-. reflexivity.
Qed.

(** ** More on the inverse *)

(** X25.  When [inverse()] returns [None].  On a matrix with [R >= 1]
    rows and [C] columns: if [R <> C], always; if [R = C] and
    [determinant()] returns [d], exactly when [d == 0]. *)
Theorem inverse_None_iff R C (m : matrix) :
  rect R C m -> 0 < R ->
  (R <> C -> inverse m = Ok None)
  /\ (R = C -> forall d, determinant m = Ok d ->
        (inverse m = Ok None <-> is_zero d = true)).
Proof.
  intros Hm HR. split.
  - intros Hne. apply (inverse_not_square m C);
      [by apply (columns_rect R C) | unfold rows; destruct Hm; lia].
  - intros <- d Hd.
    assert (Hsq : is_square m = Ok true)
      by (by rewrite (is_square_rect R R), Nat.eqb_refl).
    split; [|by apply inverse_singular].
    unfold inverse. rewrite Hsq. simpl. rewrite Hd. simpl.
    destruct (is_zero d); [done|]. intros H.
    apply bind_Ok in H as (sz & _ & H).
    apply bind_Ok in H as (minors & _ & H).
    apply bind_Ok in H as (adj & _ & H).
    apply bind_Ok in H as (res & _ & H). discriminate.
Qed.

Lemma inverse_None_iff_witness :
  rect 2 2 [[1; 2]; [2; 4]]%Q /\ 0 < 2
  /\ (inverse [[1; 2]; [2; 4]]%Q = Ok None <-> is_zero 0 = true)
  /\ inverse M3 = Ok None.
Proof.
  assert (H : rect 2 2 [[1; 2]; [2; 4]]%Q)
    by (split; [reflexivity | repeat constructor]).
  assert (H3 : rect 3 5 M3) by (split; [reflexivity | repeat constructor]).
  split; [exact H|]. split; [lia|]. split.
  - apply (proj2 (inverse_None_iff 2 2 _ H ltac:(lia)) eq_refl 0%Q).
    reflexivity.
  - apply (proj1 (inverse_None_iff 3 5 M3 H3 ltac:(lia))). lia.
Defined.


Lemma inverse_3_3_correct_witness :
  determinant M2 = Ok 10%Q /\ is_zero 10 = false
  /\ exists inv p,
       inverse M2 = Ok (Some inv) /\ matmul M2 inv = Ok p /\
       forall r k, r < 3 -> k < 3 ->
         (elt p (Z.of_nat r) (Z.of_nat k) == if r =? k then 1 else 0)%Q.
Proof.
  split; [reflexivity|]. split; [reflexivity|].
  exact (inverse_3_3_correct 3 0 2 2 0 (-2) 0 1 1 10 eq_refl eq_refl)%Q.
Defined.

(** ** More on in-place addition *)

Lemma iadd_ValueError_witness :
  let h : list (list Q) := [[1; 2]; [3]]%Q in
  Store.size [0] h = Ok (1, 2) /\ Store.size [1] h = Ok (1, 1)
  /\ (fst (Store.iadd [0] [1] h) = Raise ValueError <-> (1, 2) <> (1, 1))
  /\ ((1, 2) <> (1, 1) -> Store.iadd [0] [1] h = (Raise ValueError, h)).
Proof.
  intros h. split; [reflexivity|]. split; [reflexivity|].
  exact (Store.iadd_ValueError [0] [1] h (1, 2) (1, 1) eq_refl eq_refl).
Defined.

Lemma add_frame_witness :
  let h : list (list Q) := [[1; 2]; [3]]%Q in
  exists res h',
    Store.add [0] [1] h = (res, h')
    /\ (forall l, l < length h -> h' !! l = h !! l)
    /\ forall new, res = Ok new -> forall l, l ∈ new -> length h <= l.
Proof.
  intros h. eexists _, _. split; [reflexivity|].
  exact (Store.add_frame [0] [1] h _ _ eq_refl).
Defined.

(** ** More on slicing *)

(** X29.  A slice whose bounds, once normalised, lie inside the matrix
    and select at least one row and one column is the list slice of the
    rows, each row sliced in turn; in particular the full slice of a
    matrix with at least one row and one column is an equal matrix. *)
Theorem getitem_slice_take_drop R C (m : matrix) (i j : slice) :
  rect R C m -> 0 < R ->
  let istart := slice_bound 0 R (start i) in
  let istop := slice_bound (Z.of_nat R) R (stop i) in
  let jstart := slice_bound 0 C (start j) in
  let jstop := slice_bound (Z.of_nat C) C (stop j) in
  (0 <= istart < istop)%Z -> (istop <= Z.of_nat R)%Z ->
  (0 <= jstart < jstop)%Z -> (jstop <= Z.of_nat C)%Z ->
  getitem_slice m i j
  = Ok (map (fun rw => take (Z.to_nat (jstop - jstart))
                            (drop (Z.to_nat jstart) rw))
            (take (Z.to_nat (istop - istart)) (drop (Z.to_nat istart) m)))
  /\ getitem_slice m (Slice None None) (Slice None None) = Ok m.
Proof.
  intros Hm HR istart istop jstart jstop Hi Hi' Hj Hj'.
  assert (Hgen : forall i0 j0,
    let a := slice_bound 0 R (start i0) in
    let b := slice_bound (Z.of_nat R) R (stop i0) in
    let c := slice_bound 0 C (start j0) in
    let d := slice_bound (Z.of_nat C) C (stop j0) in
    (0 <= a < b)%Z -> (b <= Z.of_nat R)%Z ->
    (0 <= c < d)%Z -> (d <= Z.of_nat C)%Z ->
    getitem_slice m i0 j0
    = Ok (map (fun rw => take (Z.to_nat (d - c)) (drop (Z.to_nat c) rw))
              (take (Z.to_nat (b - a)) (drop (Z.to_nat a) m)))).
  { intros i0 j0 a b c d Ha Hb Hc Hd. unfold getitem_slice.
    rewrite (columns_rect R C m Hm HR). unfold rows.
    pose proof Hm as [Hlen Hall]. rewrite Hlen.
    rewrite !slice_start_Ok, !slice_stop_Ok. simpl. fold a b c d.
    destruct (Z.ltb_spec (b - a) 1); [lia|].
    destruct (Z.ltb_spec (d - c) 1); [lia|]. simpl.
    set (nr := Z.to_nat (b - a)). set (nc := Z.to_nat (d - c)).
    destruct (fill_zero_spec nr nc
                (fun r k => getitem m (a + r) (c + k))
                (fun r k => elt m (a + Z.of_nat r) (c + Z.of_nat k)))
      as (m' & -> & Hm' & Hcell).
    - intros r k Hr Hk. apply (getitem_elt R C m _ _ Hm).
      + apply In_py_range. exists (Z.to_nat a + r). lia.
      + apply In_py_range. exists (Z.to_nat c + k). lia.
    - f_equal. apply (rect_ext nr nc); [done| |].
      + split.
        * rewrite length_map, length_take, length_drop. lia.
        * apply Forall_forall. intros rw (rw' & -> & Hin)%list_elem_of_fmap.
          apply list_elem_of_lookup in Hin as [idx Hin].
          apply lookup_take_Some in Hin as [Hin _].
          rewrite lookup_drop in Hin.
          rewrite length_take, length_drop.
          rewrite (rect_lookup _ _ _ _ _ Hm Hin). lia.
      + intros r k Hr Hk. rewrite Hcell by done. unfold cell at 1.
        rewrite list_lookup_fmap, lookup_take_lt, lookup_drop by done.
        destruct (lookup_lt_is_Some_2 m (Z.to_nat a + r) ltac:(lia))
          as [rw Hrw].
        rewrite Hrw. simpl.
        rewrite lookup_take_lt, lookup_drop by done.
        destruct (lookup_lt_is_Some_2 rw (Z.to_nat c + k)) as [x Hx].
        { rewrite (rect_lookup _ _ _ _ _ Hm Hrw). lia. }
        rewrite Hx. unfold elt, cell.
        replace (Z.to_nat (a + Z.of_nat r)) with (Z.to_nat a + r) by lia.
        replace (Z.to_nat (c + Z.of_nat k)) with (Z.to_nat c + k) by lia.
        by rewrite Hrw, Hx. }
  split; [by apply Hgen|].
  pose proof (Hgen (Slice None None) (Slice None None)) as Hfull.
  cbn [start stop slice_bound] in Hfull.
  rewrite Hfull by lia. clear Hfull.
  f_equal. rewrite !Z.sub_0_r, !Nat2Z.id. change (Z.to_nat 0) with 0.
  pose proof Hm as [Hlen Hall].
  rewrite drop_0, take_ge by lia.
  rewrite <- (map_id m) at 2. apply map_ext_in. intros rw Hin.
  rewrite Forall_forall in Hall. apply list_elem_of_In, Hall in Hin.
  rewrite drop_0. by rewrite take_ge by lia.
Qed.

Lemma getitem_slice_take_drop_witness :
  rect 3 5 M3 /\ 0 < 3
  /\ getitem_slice M3 (Slice (Some 1%Z) None) (Slice (Some 2%Z) (Some (-1)%Z))
     = Ok (map (fun rw => take 2 (drop 2 rw)) (take 2 (drop 1 M3)))
  /\ getitem_slice M3 (Slice None None) (Slice None None) = Ok M3.
Proof.
  assert (H3 : rect 3 5 M3) by (split; [reflexivity | repeat constructor]).
  split; [exact H3|]. split; [lia|].
  apply (getitem_slice_take_drop 3 5 M3 (Slice (Some 1%Z) None)
           (Slice (Some 2%Z) (Some (-1)%Z)) H3 ltac:(lia)); simpl; lia.
Defined.

(** ** What [is_echelon] checks *)

(** The column of the first element of a row that is not 0, counted from
    [c]. *)
Fixpoint leading_from (c : nat) (rw : list Q) : option nat :=
  match rw with
  | [] => None
  | x :: rw' => if is_zero x then leading_from (S c) rw' else Some c
  end.

Definition leading (rw : list Q) : option nat := leading_from 0 rw.

(** Row [r] of the matrix, empty if there is none. *)
Definition row_at (m : matrix) (r : nat) : list Q := default [] (m !! r).

(** What [is_echelon] returns, row by row: [n] rows are scanned from row
    [r]; [zero_row] tells whether a zero row was seen. *)
Fixpoint echelon_from (m : matrix) (zero_row : bool) (r n : nat) : bool :=
  match n with
  | O => true
  | S n' =>
      match leading (row_at m r) with
      | None => echelon_from m true (S r) n'
      | Some c =>
          if zero_row || negb (is_zero (elt m (Z.of_nat (S r)) (Z.of_nat c)))
          then false
          else echelon_from m zero_row (S r) n'
      end
  end.

Lemma leading_from_lt c rw k : leading_from c rw = Some k ->
  c <= k < c + length rw.
Proof.
  revert c. induction rw as [|x rw IH]; intros c; simpl; [discriminate|].
  destruct (is_zero x).
  - intros H%IH. lia.
  - intros [= <-]. lia.
Qed.

Lemma echelon_row_spec R C m (zero_row : bool) (r : nat) :
  rect R C m -> S r < R ->
  forall suf c, drop c (row_at m r) = suf ->
    echelon_row m zero_row (Z.of_nat r) (map Z.of_nat (seq c (length suf)))
    = Ok (match leading_from c suf with
          | None => NoBreak
          | Some k =>
              if zero_row
                 || negb (is_zero (elt m (Z.of_nat (S r)) (Z.of_nat k)))
              then ReturnFalse else Break
          end).
Proof.
  intros Hm Hr. pose proof Hm as [Hlen _].
  destruct (lookup_lt_is_Some_2 m r ltac:(lia)) as [rw Hrw].
  assert (Hrow : row_at m r = rw) by (unfold row_at; by rewrite Hrw).
  pose proof (rect_lookup _ _ _ _ _ Hm Hrw) as Hlrw.
  induction suf as [|x suf IH]; intros c Hdrop; simpl; [reflexivity|].
  assert (Hc : rw !! c = Some x).
  { rewrite Hrow in Hdrop. rewrite <- (Nat.add_0_r c), <- lookup_drop.
    by rewrite Hdrop. }
  apply lookup_lt_Some in Hc as Hclt.
  rewrite getitem_of_nat. unfold cell at 1. rewrite Hrw, Hc. simpl.
  destruct (is_zero x) eqn:Hx; simpl.
  - apply IH. rewrite Hrow in *. rewrite (drop_S _ _ _ Hc) in Hdrop.
    by injection Hdrop as <-.
  - destruct zero_row; [reflexivity|]. simpl.
    replace (Z.of_nat r + 1)%Z with (Z.of_nat (S r)) by lia.
    rewrite (getitem_elt R C m (Z.of_nat (S r)) (Z.of_nat c) Hm);
      [|apply In_py_range; exists (S r); lia
       |apply In_py_range; exists c; lia].
    simpl. by destruct (is_zero (elt _ _ _)).
Qed.

Lemma echelon_rows_spec R C m :
  rect R C m ->
  forall n r zero_row, r + n = R - 1 ->
    echelon_rows m zero_row (map Z.of_nat (seq r n))
    = Ok (echelon_from m zero_row r n).
Proof.
  intros Hm. pose proof Hm as [Hlen _].
  induction n as [|n IH]; intros r zero_row Hr; simpl; [reflexivity|].
  rewrite (columns_rect R C) by (done || lia). simpl.
  destruct (lookup_lt_is_Some_2 m r ltac:(lia)) as [rw Hrw].
  assert (Hrow : row_at m r = rw) by (unfold row_at; by rewrite Hrw).
  pose proof (rect_lookup _ _ _ _ _ Hm Hrw) as Hlrw.
  pose proof (echelon_row_spec R C m zero_row r Hm ltac:(lia)
                (row_at m r) 0 (drop_0 _)) as Hspec.
  rewrite Hrow, Hlrw in Hspec. unfold py_range. rewrite Hspec. simpl.
  unfold leading. rewrite Hrow.
  destruct (leading_from 0 rw) as [k|]; [|apply IH; lia].
  destruct (zero_row || negb (is_zero (elt m (Z.of_nat (S r)) (Z.of_nat k))));
    [reflexivity|]. apply IH. lia.
Qed.

Lemma echelon_from_true m : forall n r zero_row,
  echelon_from m zero_row r n = true <->
  forall r', r <= r' < r + n ->
    forall c, leading (row_at m r') = Some c ->
      zero_row = false
      /\ (forall r'', r <= r'' < r' -> leading (row_at m r'') <> None)
      /\ is_zero (elt m (Z.of_nat (S r')) (Z.of_nat c)) = true.
Proof.
  induction n as [|n IH]; intros r zero_row; simpl.
  - split; [|done]. intros _ r' Hr'. lia.
  - destruct (leading (row_at m r)) as [c|] eqn:Hlead.
    + destruct zero_row; simpl.
      * split; [done|]. intros H.
        by destruct (H r ltac:(lia) c Hlead) as [[=] _].
      * destruct (is_zero (elt m (Z.of_nat (S r)) (Z.of_nat c))) eqn:Hz;
          simpl.
        -- rewrite IH. split.
           ++ intros H r' Hr' c' Hc'.
              destruct (decide (r' = r)) as [->|Hne].
              ** rewrite Hlead in Hc'. injection Hc' as <-.
                 split; [done|]. split; [|done]. intros r'' Hr''. lia.
              ** destruct (H r' ltac:(lia) c' Hc') as (_ & Hbefore & Hbelow).
                 split; [done|]. split; [|done]. intros r'' Hr''.
                 destruct (decide (r'' = r)) as [->|Hne'];
                   [by rewrite Hlead | apply Hbefore; lia].
           ++ intros H r' Hr' c' Hc'.
              destruct (H r' ltac:(lia) c' Hc') as (_ & Hbefore & Hbelow).
              split; [done|]. split; [|done]. intros r'' Hr''.
              apply Hbefore. lia.
        -- split; [done|]. intros H.
           destruct (H r ltac:(lia) c Hlead) as (_ & _ & Hbelow). congruence.
    + rewrite IH. split.
      * intros H r' Hr' c' Hc'.
        destruct (decide (r' = r)) as [->|Hne]; [congruence|].
        by destruct (H r' ltac:(lia) c' Hc') as [[=] _].
      * intros H r' Hr' c' Hc'.
        destruct (H r' ltac:(lia) c' Hc') as (_ & Hbefore & _).
        by destruct (Hbefore r ltac:(lia)).
Qed.

(** X30.  What [is_echelon] checks.  On a rectangular matrix it returns a
    boolean, and true exactly when every row but the last that has an
    element other than 0 comes after no zero row and has 0 directly below
    its first such element.  The last row is not examined, and nothing
    else is required of the other rows. *)
Theorem is_echelon_spec R C (m : matrix) :
  rect R C m ->
  exists b,
    is_echelon m = Ok b
    /\ (b = true <->
        forall r c, S r < R -> leading (row_at m r) = Some c ->
          (forall r', r' < r -> leading (row_at m r') <> None)
          /\ exists x, cell m (S r) c = Some x /\ (x == 0)%Q).
Proof.
  intros Hm. pose proof Hm as [Hlen _].
  exists (echelon_from m false 0 (R - 1)). split.
  - unfold is_echelon, rows, py_range. rewrite Hlen.
    by apply (echelon_rows_spec R C).
  - rewrite echelon_from_true. split.
    + intros H r c Hr Hlead.
      destruct (H r ltac:(lia) c Hlead) as (_ & Hbefore & Hbelow).
      split; [intros r' Hr'; apply Hbefore; lia|].
      destruct (lookup_lt_is_Some_2 m r ltac:(lia)) as [rw Hrw].
      assert (Hc : c < C).
      { unfold leading, row_at in Hlead. rewrite Hrw in Hlead. simpl in Hlead.
        apply leading_from_lt in Hlead.
        rewrite (rect_lookup _ _ _ _ _ Hm Hrw) in Hlead. lia. }
      exists (elt m (Z.of_nat (S r)) (Z.of_nat c)).
      split; [by apply (cell_elt R C)|]. by apply Qeq_bool_iff.
    + intros H r Hr c Hlead.
      destruct (H r c ltac:(lia) Hlead) as (Hbefore & x & Hx & Hzero).
      split; [done|]. split; [intros r' Hr'; apply Hbefore; lia|].
      unfold elt. rewrite !Nat2Z.id, Hx. simpl. by apply Qeq_bool_iff.
Qed.

Lemma is_echelon_spec_witness :
  rect 3 5 M3 /\
  exists b,
    is_echelon M3 = Ok b
    /\ (b = true <->
        forall r c, S r < 3 -> leading (row_at M3 r) = Some c ->
          (forall r', r' < r -> leading (row_at M3 r') <> None)
          /\ exists x, cell M3 (S r) c = Some x /\ (x == 0)%Q).
Proof.
  assert (H3 : rect 3 5 M3) by (split; [reflexivity | repeat constructor]).
  split; [exact H3|]. exact (is_echelon_spec 3 5 M3 H3).
Defined.
